(** * tff-cli: the filter translation layer and the relative time parser

    A shallow embedding of the query-building code of the FeedFactory
    command-line client ([internal/api] and [cmd]) together with the
    properties its specification states about it.

    Layout: the Go runtime pieces the code leans on (machine integers,
    [strconv.Atoi], the one regular expression, [time], [strings.Split],
    [url.Values], a parsed JSON value), then the embedded functions of the
    repository, then the lemmas and the theorems about them. *)

From Stdlib Require Import ZArith Lia Bool String Ascii List.
From stdpp Require Import base option gmap strings list pretty.

Local Open Scope string_scope.
Local Open Scope Z_scope.

#[local] Set Warnings "-register-all".

(** ** Machine integers

    Go's [int] is 64 bits wide on the platforms the tool is built for. *)

Definition max_int : Z := 2 ^ 63 - 1.
Definition min_int : Z := - 2 ^ 63.

(** Two's complement wrap-around of an [int] operation. *)
Definition wrap_int (z : Z) : Z := (z + 2 ^ 63) mod 2 ^ 64 - 2 ^ 63.

(** ** Bytes and decimal digits *)

Definition isDigit (c : ascii) : bool :=
  let n := Z.of_N (N_of_ascii c) in (48 <=? n) && (n <=? 57).

Definition digitVal (c : ascii) : Z := Z.of_N (N_of_ascii c) - 48.

Fixpoint all_digits (s : string) : bool :=
  match s with
  | EmptyString => true
  | String c r => isDigit c && all_digits r
  end.

(** Value of a digit string read left to right, as the loop
    [n = n*10 + int(ch)] computes it, without any bound. *)
Fixpoint decimal_from (acc : Z) (s : string) : Z :=
  match s with
  | EmptyString => acc
  | String c r => decimal_from (acc * 10 + digitVal c) r
  end.

Definition decimal (s : string) : Z := decimal_from 0 s.

(** ** strconv.Atoi

    The error of a failed conversion, and the value returned with it:
    [0] on a syntax error, the nearest bound on a range error. *)

Inductive NumError := ErrSyntax | ErrRange.

Definition Atoi (s : string) : Z * option NumError :=
  let '(neg, body) :=
    match s with
    | String c r =>
      if Ascii.eqb c "-" then (true, r)
      else if Ascii.eqb c "+" then (false, r)
      else (false, s)
    | EmptyString => (false, s)
    end in
  match body with
  | EmptyString => (0, Some ErrSyntax)
  | _ =>
    if all_digits body then
      let un := decimal body in
      if neg then
        if 2 ^ 63 <? un then (min_int, Some ErrRange) else (- un, None)
      else
        if max_int <? un then (max_int, Some ErrRange) else (un, None)
    else (0, Some ErrSyntax)
  end.

(** ** The regular expression [^(\d+)(d|w|mo|y)$]

    [\d] is an ASCII digit and [$] is the end of the text.  The first group is
    the longest run of leading digits (no unit starts with a digit), the second
    group is what is left.  The result holds the groups [m[1]] and [m[2]];
    [m[0]] is the whole input. *)

Fixpoint span_digits (s : string) : string * string :=
  match s with
  | String c r =>
    if isDigit c then let '(ds, rest) := span_digits r in (String c ds, rest)
    else (EmptyString, s)
  | EmptyString => (EmptyString, EmptyString)
  end.

Definition is_unit (u : string) : bool :=
  (u =? "d")%string || (u =? "w")%string || (u =? "mo")%string || (u =? "y")%string.

Definition relativeTimeRe_FindStringSubmatch (s : string) : option (string * string) :=
  let '(ds, rest) := span_digits s in
  match ds with
  | EmptyString => None
  | _ => if is_unit rest then Some (ds, rest) else None
  end.

(** The language of the expression, stated directly. *)
Definition matches_relative (s : string) : Prop :=
  exists ds u, ds <> EmptyString /\ all_digits ds = true /\ is_unit u = true /\ s = (ds ++ u)%string.

(** ** time

    A [Time] is a wall-clock instant in the location it was read in: whole
    seconds since 0001-01-01T00:00:00 of the proleptic Gregorian calendar and
    nanoseconds within the second.  The location is taken to have one fixed
    offset, so that every civil date and clock time names one instant. *)

Record Time := mkTime { sec : Z; nsec : Z }.

(** The library stores the seconds in a signed 64-bit field. *)
Definition Time_ok (t : Time) : Prop :=
  min_int <= sec t <= max_int /\ 0 <= nsec t < 10 ^ 9.

Definition secondsPerDay : Z := 86400.

Definition isLeap (year : Z) : bool :=
  (Z.rem year 4 =? 0) && (negb (Z.rem year 100 =? 0) || (Z.rem year 400 =? 0)).

Definition yearLen (year : Z) : Z := if isLeap year then 366 else 365.

(** Days before the first day of [year], counted from 0001-01-01. *)
Definition daysSinceEpoch (year : Z) : Z :=
  let y := year - 1 in
  365 * y + y / 4 - y / 100 + y / 400.

(** [daysBefore m] is the number of days of a non-leap year before month
    [m + 1]; the table has an entry for [m = 12] (the whole year). *)
Definition daysBefore (m : Z) : Z :=
  match m with
  | 0 => 0 | 1 => 31 | 2 => 59 | 3 => 90 | 4 => 120 | 5 => 151 | 6 => 181
  | 7 => 212 | 8 => 243 | 9 => 273 | 10 => 304 | 11 => 334 | _ => 365
  end.

Definition daysIn (month year : Z) : Z :=
  if (month =? 2) && isLeap year then 29
  else daysBefore month - daysBefore (month - 1).

(** [norm hi lo base] carries [lo] into [hi] until [0 <= lo < base]. *)
Definition norm (hi lo base : Z) : Z * Z :=
  let '(hi, lo) :=
    if lo <? 0 then
      let n := Z.quot (- lo - 1) base + 1 in (hi - n, lo + n * base)
    else (hi, lo) in
  if base <=? lo then
    let n := Z.quot lo base in (hi + n, lo - n * base)
  else (hi, lo).

(** [time.Date]: fields outside their usual ranges are normalised, so that
    October 32 becomes November 1. *)
Definition Date (year month day hour min sec_ nsec_ : Z) : Time :=
  let '(year, m) := norm year (month - 1) 12 in
  let month := m + 1 in
  let '(sec_, nsec_) := norm sec_ nsec_ (10 ^ 9) in
  let '(min, sec_) := norm min sec_ 60 in
  let '(hour, min) := norm hour min 60 in
  let '(day, hour) := norm day hour 24 in
  let d := daysSinceEpoch year + daysBefore (month - 1)
           + (if isLeap year && (3 <=? month) then 1 else 0)
           + (day - 1) in
  mkTime (d * secondsPerDay + hour * 3600 + min * 60 + sec_) nsec_.

(** The year a day number falls in: an estimate from the mean year length,
    moved by one where it is off. *)
Definition yearOfDays (d : Z) : Z :=
  let y := (400 * d) / 146097 + 1 in
  if d <? daysSinceEpoch y then y - 1
  else if daysSinceEpoch (y + 1) <=? d then y + 1
  else y.

(** Month and day of the month of the zero-based day [yday] of [year]. *)
Definition monthDay (year yday : Z) : Z * Z :=
  if isLeap year && (yday =? 31 + 29 - 1) then (2, 29)
  else
    let day := if isLeap year && (31 + 29 - 1 <? yday) then yday - 1 else yday in
    let month := day / 31 in
    let end_ := daysBefore (month + 1) in
    let '(month, begin) :=
      if end_ <=? day then (month + 1, end_) else (month, daysBefore month) in
    (month + 1, day - begin + 1).

(** [t.Date()]: year, month and day of the month. *)
Definition Time_Date (t : Time) : Z * Z * Z :=
  let d := sec t / secondsPerDay in
  let year := yearOfDays d in
  let '(month, day) := monthDay year (d - daysSinceEpoch year) in
  (year, month, day).

(** [t.Clock()]: hour, minute and second within the day. *)
Definition Time_Clock (t : Time) : Z * Z * Z :=
  let s := sec t mod secondsPerDay in
  (s / 3600, (s mod 3600) / 60, s mod 60).

(** [t.AddDate(years, months, days)]. *)
Definition AddDate (t : Time) (years months days : Z) : Time :=
  let '(year, month, day) := Time_Date t in
  let '(hour, min, sec_) := Time_Clock t in
  Date (year + years) (month + months) (day + days) hour min sec_ (nsec t).

(** [time.Parse("2006-01-02", s)]: four digits, a dash, two digits, a dash,
    two digits, nothing after them; the month in 1..12 and the day within
    the month. *)
Definition two_digits (a b : ascii) : Z := digitVal a * 10 + digitVal b.

Definition Parse_2006_01_02 (s : string) : option Time :=
  match s with
  | String y1 (String y2 (String y3 (String y4 (String s1
      (String m1 (String m2 (String s2 (String d1 (String d2 EmptyString))))))))) =>
    if isDigit y1 && isDigit y2 && isDigit y3 && isDigit y4 && Ascii.eqb s1 "-"
       && isDigit m1 && isDigit m2 && Ascii.eqb s2 "-" && isDigit d1 && isDigit d2 then
      let year := two_digits y1 y2 * 100 + two_digits y3 y4 in
      let month := two_digits m1 m2 in
      let day := two_digits d1 d2 in
      if (1 <=? month) && (month <=? 12) && (1 <=? day) && (day <=? daysIn month year)
      then Some (Date year month day 0 0 0 0)
      else None
    else None
  | _ => None
  end.

(** A calendar date and its [YYYY-MM-DD] spelling, as the specification
    speaks of an absolute date. *)
Definition valid_date (year month day : Z) : Prop :=
  0 <= year <= 9999 /\ 1 <= month <= 12 /\ 1 <= day <= daysIn month year.

Definition digitChar (n : Z) : ascii := ascii_of_N (Z.to_N (48 + n)).

Definition pad2 (n : Z) : string :=
  String (digitChar (n / 10)) (String (digitChar (n mod 10)) EmptyString).

Definition format_date (year month day : Z) : string :=
  (pad2 (year / 100) ++ pad2 (year mod 100) ++ "-" ++ pad2 month ++ "-" ++ pad2 day)%string.

Definition absolute_date (s : string) : Prop :=
  exists year month day, valid_date year month day /\ s = format_date year month day.

(** ** strings.Split and strings.SplitN with a one-byte separator *)

Fixpoint strings_Split (s : string) (sep : ascii) : list string :=
  match s with
  | EmptyString => [EmptyString]
  | String c r =>
    if Ascii.eqb c sep then EmptyString :: strings_Split r sep
    else
      match strings_Split r sep with
      | h :: t => String c h :: t
      | [] => [String c EmptyString]
      end
  end.

(** [strings.SplitN(s, sep, 2)]: cut at the first separator only. *)
Fixpoint strings_SplitN_2 (s : string) (sep : ascii) : list string :=
  match s with
  | EmptyString => [EmptyString]
  | String c r =>
    if Ascii.eqb c sep then [EmptyString; r]
    else
      match strings_SplitN_2 r sep with
      | h :: t => String c h :: t
      | [] => [String c EmptyString]
      end
  end.

(** [strings.Join]. *)
Fixpoint strings_Join (l : list string) (sep : string) : string :=
  match l with
  | [] => EmptyString
  | [x] => x
  | x :: r => (x ++ sep ++ strings_Join r sep)%string
  end.

Fixpoint contains_byte (c : ascii) (s : string) : bool :=
  match s with
  | EmptyString => false
  | String a r => Ascii.eqb a c || contains_byte c r
  end.

(** ** Errors and results

    The errors the modelled code creates, one constructor per [fmt.Errorf]
    call site; [Wrapped] is a [%w] wrap behind a flag name, [External]
    stands for a failure of the transport or of the file system. *)

Inductive error :=
| InvalidTimeExpression (input : string)
| Wrapped (flag : string) (cause : error)
| GeoFormat
| GeoDistanceRequiresGeo
| UitkrantRequiresRange
| External (msg : string).

Inductive result (A : Type) :=
| Ok (a : A)
| Err (e : error).
Arguments Ok {A} a.
Arguments Err {A} e.

(** What the environment supplies: library functions whose inner working
    the code does not depend on, the remote service and the file system. *)
Class Platform := {
  strconv_Quote : string -> string;
  strings_TrimSpace : string -> string;
  time_Format : string -> Time -> string;
  url_Encode : gmap string (list string) -> string;
  doRequest : string -> string -> result string;
  os_WriteFile : string -> string -> option error
}.

(** The text of an error, as [Error()] renders it. *)
Fixpoint Error_string `{Platform} (e : error) : string :=
  (match e with
   | InvalidTimeExpression s =>
     "invalid time expression " ++ strconv_Quote s
       ++ " (use e.g. 3d, 2w, 1mo, 1y, or 2026-01-15)"
   | Wrapped flag cause => flag ++ ": " ++ Error_string cause
   | GeoFormat => "--geo must be in format lat,lon (e.g. 52.37,4.89)"
   | GeoDistanceRequiresGeo => "--geo-distance requires --geo flag"
   | UitkrantRequiresRange => "format 'uitkrant' requires both --date-from and --date-to"
   | External msg => msg
   end)%string.

(** ** cmd/timefilter.go *)

(** [now] is what [time.Now()] yields when the call evaluates it; it is
    read in the relative branch only. *)
Definition ParseRelativeTime (now : Time) (s : string) : result Time :=
  let relative :=
    match relativeTimeRe_FindStringSubmatch s with
    | Some (m1, m2) =>
      let n := fst (Atoi m1) in
      if (m2 =? "d")%string then Some (AddDate now 0 0 (wrap_int (- n)))
      else if (m2 =? "w")%string then Some (AddDate now 0 0 (wrap_int (wrap_int (- n) * 7)))
      else if (m2 =? "mo")%string then Some (AddDate now 0 (wrap_int (- n)) 0)
      else if (m2 =? "y")%string then Some (AddDate now (wrap_int (- n)) 0 0)
      else None
    | None => None
    end in
  match relative with
  | Some t => Ok t
  | None =>
    match Parse_2006_01_02 s with
    | Some t => Ok t
    | None => Err (InvalidTimeExpression s)
    end
  end.

Definition ParseRelativeDate `{Platform} (now : Time) (s : string) : result string :=
  match ParseRelativeTime now s with
  | Err e => Err e
  | Ok t => Ok (time_Format "2006-01-02" t)
  end.

Definition RFC3339 : string := "2006-01-02T15:04:05Z07:00".

Definition ParseRelativeISO `{Platform} (now : Time) (s : string) : result string :=
  match ParseRelativeTime now s with
  | Err e => Err e
  | Ok t => Ok (time_Format RFC3339 t)
  end.

(** ** internal/api: the response shapes *)

(** A decoded JSON value; a number keeps its literal. *)
Inductive json :=
| JNull
| JBool (b : bool)
| JNumber (literal : string)
| JString (s : string)
| JArray (items : list json)
| JObject (fields : list (string * json)).

(** [json.Unmarshal] into a [string]: a JSON string is stored, [null] leaves
    the zero value, anything else is a type error. *)
Definition Unmarshal_string (v : json) : option string :=
  match v with
  | JString s => Some s
  | JNull => Some EmptyString
  | _ => None
  end.

(** [json.Unmarshal] into a [[]string]: [null] gives the nil slice, an array
    is decoded element by element and fails when an element does. *)
Definition Unmarshal_strings (v : json) : option (list string) :=
  match v with
  | JNull => Some []
  | JArray items => mapM Unmarshal_string items
  | _ => None
  end.

Definition FlexStringSlice := list string.

(** The new value of the receiver and the returned error. *)
Definition FlexStringSlice_UnmarshalJSON (data : json) : FlexStringSlice * option error :=
  match Unmarshal_strings data with
  | Some arr => (arr, None)
  | None =>
    match Unmarshal_string data with
    | Some s =>
      if (s =? EmptyString)%string then ([], None)
      else (strings_Split s ",", None)
    | None => ([], None)
    end
  end.

Record TRCItemDetail := mkDetail {
  Lang : string;
  Title : string;
  ShortDescription : string;
  LongDescription : string
}.

(** The fields of a [Resource] that the accessors below read. *)
Record Resource := mkResource {
  ID : string;
  Markers : FlexStringSlice;
  TRCItemDetails : list TRCItemDetail
}.

Definition GetMarkers (r : Resource) : list string := Markers r.

(** The inner loop of [GetTitle]: the first detail of language [lang] with a
    title. *)
Fixpoint firstTitled (lang : string) (ds : list TRCItemDetail) : option string :=
  match ds with
  | [] => None
  | d :: rest =>
    if (Lang d =? lang)%string && negb (Title d =? EmptyString)%string then Some (Title d)
    else firstTitled lang rest
  end.

(** The outer loop over the preferred languages. *)
Fixpoint firstPreferred (langs : list string) (ds : list TRCItemDetail) : option string :=
  match langs with
  | [] => None
  | lang :: rest =>
    match firstTitled lang ds with
    | Some t => Some t
    | None => firstPreferred rest ds
    end
  end.

Definition GetTitle (r : Resource) : string :=
  match TRCItemDetails r with
  | [] => "-"
  | d0 :: _ =>
    match firstPreferred ["nl"; "en"; "de"] (TRCItemDetails r) with
    | Some t => t
    | None => if negb (Title d0 =? EmptyString)%string then Title d0 else "-"
    end
  end.

(** Title resolution as the specification words it. *)
Definition titled_in (lang : string) (d : TRCItemDetail) : bool :=
  (Lang d =? lang)%string && negb (Title d =? EmptyString)%string.

Definition resolve_title_spec (ds : list TRCItemDetail) : string :=
  match List.find (titled_in "nl") ds with
  | Some d => Title d
  | None =>
    match List.find (titled_in "en") ds with
    | Some d => Title d
    | None =>
      match List.find (titled_in "de") ds with
      | Some d => Title d
      | None =>
        match ds with
        | d0 :: _ => if (Title d0 =? EmptyString)%string then "-" else Title d0
        | [] => "-"
        end
      end
    end
  end.

(** ** internal/api: building the query *)

(** [url.Values] is a map from a key to its list of values; [Set] replaces
    whatever the key held by the one value. *)
Abbreviation Values := (gmap string (list string)).

Definition Values_Set (key value : string) (q : Values) : Values :=
  <[key := [value]]> q.

(** [fmt.Sprintf("%d", n)]. *)
Definition Sprintf_d (n : Z) : string := pretty n.

Definition nonempty (s : string) : bool := negb (s =? EmptyString)%string.

Module ListOptions.
Record t := mk {
  Search : string;
  Markers : string;
  Keywords : string;
  Types : string;
  Categories : string;
  WFStatus : string;
  Published : string;
  Deleted : bool;
  Owner : string;
  UserOrg : string;
  TRCID : string;
  ExternalID : string;
  Language : string;
  UpdatedSince : string;
  Sort : string;
  Asc : bool;
  Size : Z;
  Page : Z
}.

(** The zero value of the struct. *)
Definition zero : t :=
  mk EmptyString EmptyString EmptyString EmptyString EmptyString EmptyString EmptyString false EmptyString EmptyString EmptyString EmptyString EmptyString EmptyString EmptyString false 0 0.
End ListOptions.

Module EventListOptions.
Record t := mk {
  ListOptions : ListOptions.t;
  DateFrom : string;
  DateTo : string;
  LocationID : string;
  City : string;
  GeoLat : string;
  GeoLon : string;
  GeoDistance : string
}.
End EventListOptions.

Module ExportOptions.
Record t := mk {
  PropertyIDs : string;
  Format : string
}.
End ExportOptions.

Definition buildListQuery (opts : ListOptions.t) : Values :=
  let q : Values := ∅ in
  let q := if nonempty (ListOptions.Search opts)
           then Values_Set "search" (ListOptions.Search opts) q else q in
  let q := if nonempty (ListOptions.Markers opts)
           then Values_Set "markers" (ListOptions.Markers opts) q else q in
  let q := if nonempty (ListOptions.Keywords opts)
           then Values_Set "keywords" (ListOptions.Keywords opts) q else q in
  let q := if nonempty (ListOptions.Types opts)
           then Values_Set "types" (ListOptions.Types opts) q else q in
  let q := if nonempty (ListOptions.Categories opts)
           then Values_Set "categories" (ListOptions.Categories opts) q else q in
  let q := if nonempty (ListOptions.WFStatus opts)
           then Values_Set "wfstatus" (ListOptions.WFStatus opts) q else q in
  let q := if nonempty (ListOptions.Published opts)
           then Values_Set "published" (ListOptions.Published opts) q else q in
  let q := if ListOptions.Deleted opts
           then Values_Set "deleted" "true" q else q in
  let q := if nonempty (ListOptions.Owner opts)
           then Values_Set "owner" (ListOptions.Owner opts) q else q in
  let q := if nonempty (ListOptions.UserOrg opts)
           then Values_Set "userorganisation" (ListOptions.UserOrg opts) q else q in
  let q := if nonempty (ListOptions.TRCID opts)
           then Values_Set "trcid" (ListOptions.TRCID opts) q else q in
  let q := if nonempty (ListOptions.ExternalID opts)
           then Values_Set "externalid" (ListOptions.ExternalID opts) q else q in
  let q := if nonempty (ListOptions.Language opts)
           then Values_Set "lang" (ListOptions.Language opts) q else q in
  let q := if nonempty (ListOptions.UpdatedSince opts)
           then Values_Set "lastupdated" (ListOptions.UpdatedSince opts) q else q in
  let q := if nonempty (ListOptions.Sort opts)
           then Values_Set "sort" (ListOptions.Sort opts) q else q in
  let q := if ListOptions.Asc opts
           then Values_Set "sortorder" "asc" q else q in
  let q := if 0 <? ListOptions.Size opts
           then Values_Set "size" (Sprintf_d (ListOptions.Size opts)) q else q in
  let q := if 0 <? ListOptions.Page opts
           then Values_Set "page" (Sprintf_d (ListOptions.Page opts)) q else q in
  q.

(** The event-specific parameters, set the same way by [ListEvents] and
    [ExportEvents]. *)
Definition eventParams (opts : EventListOptions.t) (q : Values) : Values :=
  let q := if nonempty (EventListOptions.DateFrom opts)
           then Values_Set "eventDateRangeStart" (EventListOptions.DateFrom opts) q else q in
  let q := if nonempty (EventListOptions.DateTo opts)
           then Values_Set "eventDateRangeEnd" (EventListOptions.DateTo opts) q else q in
  let q := if nonempty (EventListOptions.LocationID opts)
           then Values_Set "locationId" (EventListOptions.LocationID opts) q else q in
  let q := if nonempty (EventListOptions.City opts)
           then Values_Set "city" (EventListOptions.City opts) q else q in
  let q := if nonempty (EventListOptions.GeoLat opts) && nonempty (EventListOptions.GeoLon opts)
           then Values_Set "geo"
                  (EventListOptions.GeoLat opts ++ "," ++ EventListOptions.GeoLon opts)%string q
           else q in
  let q := if nonempty (EventListOptions.GeoDistance opts)
           then Values_Set "geodistance" (EventListOptions.GeoDistance opts) q else q in
  q.

(** The query of each client call at the point where it is encoded. *)
Definition ListEvents_query (opts : EventListOptions.t) : Values :=
  eventParams opts (buildListQuery (EventListOptions.ListOptions opts)).

Definition ExportEvents_query (opts : EventListOptions.t) (exportOpts : ExportOptions.t) : Values :=
  let q := buildListQuery (EventListOptions.ListOptions opts) in
  let format := ExportOptions.Format exportOpts in
  let format := if (format =? EmptyString)%string then "excel" else format in
  let q := Values_Set "format" format q in
  let q := if nonempty (ExportOptions.PropertyIDs exportOpts)
           then Values_Set "export_propertyids" (ExportOptions.PropertyIDs exportOpts) q else q in
  eventParams opts q.

Definition ExportLocations_query (opts : ListOptions.t) (exportOpts : ExportOptions.t) : Values :=
  let q := buildListQuery opts in
  let q := Values_Set "format" "excel" q in
  let q := if nonempty (ExportOptions.PropertyIDs exportOpts)
           then Values_Set "export_propertyids" (ExportOptions.PropertyIDs exportOpts) q else q in
  q.

Definition ExportVenues_query (opts : ListOptions.t) (exportOpts : ExportOptions.t) : Values :=
  let q := buildListQuery opts in
  let q := Values_Set "format" "excel" q in
  let q := if nonempty (ExportOptions.PropertyIDs exportOpts)
           then Values_Set "export_properyids" (ExportOptions.PropertyIDs exportOpts) q else q in
  q.

Definition ExportRoutes_query (opts : ListOptions.t) : Values :=
  Values_Set "format" "excel" (buildListQuery opts).

Definition ExportEventGroups_query (opts : ListOptions.t) : Values :=
  Values_Set "format" "excel" (buildListQuery opts).

(** ** Effects

    What a command does to the outside: requests sent, files written, lines
    printed, in order.  A computation yields its trace and either a value or
    the error it stopped with. *)

Inductive Effect :=
| Request (method endpoint : string)
| FileWritten (name data : string)
| Printed (text : string).

Definition M (A : Type) : Type := list Effect * result A.

Definition ret {A} (a : A) : M A := ([], Ok a).
Definition fail {A} (e : error) : M A := ([], Err e).

Definition bind {A B} (m : M A) (k : A -> M B) : M B :=
  match m with
  | (tr, Ok a) => let '(tr', r) := k a in ((tr ++ tr')%list, r)
  | (tr, Err e) => (tr, Err e)
  end.

Notation "x <- m ;; k" := (bind m (fun x => k))
  (at level 20, m at level 99, k at level 200, only parsing).

(** A pure step that may fail. *)
Definition lift {A} (r : result A) : M A := ([], r).

(** [fmt.Errorf(flag + ": %w", err)] on the error path. *)
Definition wrapErr {A} (flag : string) (r : result A) : result A :=
  match r with
  | Ok a => Ok a
  | Err e => Err (Wrapped flag e)
  end.

Definition send `{Platform} (method endpoint : string) : M string :=
  ([Request method endpoint], doRequest method endpoint).

Definition writeFile `{Platform} (name data : string) : M unit :=
  ([FileWritten name data],
   match os_WriteFile name data with
   | None => Ok tt
   | Some e => Err (Wrapped "writing file" e)
   end).

Definition print (text : string) : M unit := ([Printed text], Ok tt).

(** [ListEvents] up to the response body; decoding the body into a
    [SearchResult] is left to the caller of the model. *)
Definition Client_ListEvents `{Platform} (opts : EventListOptions.t) : M string :=
  send "GET" ("/events?" ++ url_Encode (ListEvents_query opts))%string.

Definition Client_ExportEvents `{Platform}
    (opts : EventListOptions.t) (exportOpts : ExportOptions.t) : M string :=
  send "GET" ("/events?" ++ url_Encode (ExportEvents_query opts exportOpts))%string.

Definition Client_ExportLocations `{Platform}
    (opts : ListOptions.t) (exportOpts : ExportOptions.t) : M string :=
  send "GET" ("/locations?" ++ url_Encode (ExportLocations_query opts exportOpts))%string.

Definition Client_ExportVenues `{Platform}
    (opts : ListOptions.t) (exportOpts : ExportOptions.t) : M string :=
  send "GET" ("/venues?" ++ url_Encode (ExportVenues_query opts exportOpts))%string.

(** ** cmd: the event commands *)

(** What [time.Now()] yields inside each of the three parse calls of a run. *)
Record Readings := mkReadings {
  at_updated_since : Time;
  at_date_from : Time;
  at_date_to : Time
}.

(** The [--geo] flag: empty leaves both coordinates empty, otherwise it is
    cut at the first comma and both halves are trimmed. *)
Definition parseGeo `{Platform} (geo : string) : result (string * string) :=
  if nonempty geo then
    match strings_SplitN_2 geo "," with
    | [lat; lon] => Ok (strings_TrimSpace lat, strings_TrimSpace lon)
    | _ => Err GeoFormat
    end
  else Ok (EmptyString, EmptyString).

(** The [--geo-distance] flag needs [--geo]. *)
Definition checkGeoDistance (geo geoDistance : string) : result string :=
  if nonempty geoDistance then
    if (geo =? EmptyString)%string then Err GeoDistanceRequiresGeo
    else Ok geoDistance
  else Ok EmptyString.

(** An optional time flag: parsed when given, with the flag name put before
    the error. *)
Definition parseFlag (flag : string) (parse : string -> result string) (value : string)
    : result string :=
  if nonempty value then wrapErr flag (parse value) else Ok EmptyString.

Module EventsListCmd.
Record t := mk {
  Search : string;
  Markers : string;
  Keywords : string;
  Types : string;
  Categories : string;
  WFStatus : string;
  Published : string;
  Deleted : bool;
  Owner : string;
  UserOrg : string;
  TRCID : string;
  ExternalID : string;
  Language : string;
  UpdatedSince : string;
  Sort : string;
  Asc : bool;
  Size : Z;
  Page : Z;
  JSON : bool;
  DateFrom : string;
  DateTo : string;
  LocationID : string;
  City : string;
  Geo : string;
  GeoDistance : string
}.

(** The options handed to the client once every flag is accepted. *)
Definition options `{Platform} (c : t) (clock : Readings) : result EventListOptions.t :=
  match parseFlag "--updated-since" (ParseRelativeISO (at_updated_since clock)) (UpdatedSince c) with
  | Err e => Err e
  | Ok updatedSince =>
  match parseFlag "--date-from" (ParseRelativeDate (at_date_from clock)) (DateFrom c) with
  | Err e => Err e
  | Ok dateFrom =>
  match parseFlag "--date-to" (ParseRelativeDate (at_date_to clock)) (DateTo c) with
  | Err e => Err e
  | Ok dateTo =>
  match parseGeo (Geo c) with
  | Err e => Err e
  | Ok (geoLat, geoLon) =>
  match checkGeoDistance (Geo c) (GeoDistance c) with
  | Err e => Err e
  | Ok geoDistance =>
    Ok (EventListOptions.mk
          (ListOptions.mk (Search c) (Markers c) (Keywords c) (Types c) (Categories c)
             (WFStatus c) (Published c) (Deleted c) (Owner c) (UserOrg c) (TRCID c)
             (ExternalID c) (Language c) updatedSince (Sort c) (Asc c) (Size c) (Page c))
          dateFrom dateTo (LocationID c) (City c) geoLat geoLon geoDistance)
  end end end end end.

(** [Run] up to the answer of [client.ListEvents]; printing the answer as
    JSON or as a table follows and sends nothing. *)
Definition Run `{Platform} (c : t) (clock : Readings) : M string :=
  opts <- lift (options c clock) ;;
  Client_ListEvents opts.
End EventsListCmd.

Module EventsExportCmd.
Record t := mk {
  Output : string;
  Format : string;
  PropertyIDs : string;
  Search : string;
  Markers : string;
  Keywords : string;
  Types : string;
  Categories : string;
  WFStatus : string;
  Published : string;
  Deleted : bool;
  Owner : string;
  UserOrg : string;
  TRCID : string;
  ExternalID : string;
  Language : string;
  UpdatedSince : string;
  Sort : string;
  Asc : bool;
  DateFrom : string;
  DateTo : string;
  LocationID : string;
  City : string;
  Geo : string;
  GeoDistance : string
}.

Definition checkFormat (c : t) : result unit :=
  if (Format c =? "uitkrant")%string
     && ((DateFrom c =? EmptyString)%string || (DateTo c =? EmptyString)%string)
  then Err UitkrantRequiresRange
  else Ok tt.

Definition options `{Platform} (c : t) (clock : Readings) : result EventListOptions.t :=
  match parseFlag "--updated-since" (ParseRelativeISO (at_updated_since clock)) (UpdatedSince c) with
  | Err e => Err e
  | Ok updatedSince =>
  match parseFlag "--date-from" (ParseRelativeDate (at_date_from clock)) (DateFrom c) with
  | Err e => Err e
  | Ok dateFrom =>
  match parseFlag "--date-to" (ParseRelativeDate (at_date_to clock)) (DateTo c) with
  | Err e => Err e
  | Ok dateTo =>
  match parseGeo (Geo c) with
  | Err e => Err e
  | Ok (geoLat, geoLon) =>
  match checkGeoDistance (Geo c) (GeoDistance c) with
  | Err e => Err e
  | Ok geoDistance =>
    Ok (EventListOptions.mk
          (ListOptions.mk (Search c) (Markers c) (Keywords c) (Types c) (Categories c)
             (WFStatus c) (Published c) (Deleted c) (Owner c) (UserOrg c) (TRCID c)
             (ExternalID c) (Language c) updatedSince (Sort c) (Asc c) 0 0)
          dateFrom dateTo (LocationID c) (City c) geoLat geoLon geoDistance)
  end end end end end.

Definition exported (c : t) (data : string) : string :=
  ("Exported events to " ++ Output c ++ " ("
     ++ Sprintf_d (Z.of_nat (String.length data)) ++ " bytes)"
     ++ String "010" EmptyString)%string.

Definition Run `{Platform} (c : t) (clock : Readings) : M unit :=
  _ <- lift (checkFormat c) ;;
  opts <- lift (options c clock) ;;
  data <- Client_ExportEvents opts (ExportOptions.mk (PropertyIDs c) (Format c)) ;;
  _ <- writeFile (Output c) data ;;
  print (exported c data).
End EventsExportCmd.

(** The requests and the file writes in a trace. *)
Definition is_request (e : Effect) : bool :=
  match e with Request _ _ => true | _ => false end.

Definition is_file_write (e : Effect) : bool :=
  match e with FileWritten _ _ => true | _ => false end.

(** ** Dates around a month's end, for stating what [AddDate] returns *)

(** Months counted from January of year 0, and back. *)
Definition monthIndex (year month : Z) : Z := 12 * year + (month - 1).

Definition monthOf (i : Z) : Z * Z := (i / 12, i mod 12 + 1).

(** Day number of a date whose month is in 1..12; the day of the month may
    lie outside the month. *)
Definition dayNumber (year month day : Z) : Z :=
  daysSinceEpoch year + daysBefore (month - 1)
  + (if isLeap year && (3 <=? month) then 1 else 0) + (day - 1).

(** A day past the end of its month is carried into the month after it:
    February 31 of a common year is March 3. *)
Definition carried (year month day : Z) : Z * Z * Z :=
  if day <=? daysIn month year then (year, month, day)
  else
    let '(year', month') := monthOf (monthIndex year month + 1) in
    (year', month', day - daysIn month year).

(** A year, a month and a day that name a day of the calendar. *)
Definition on_calendar (date : Z * Z * Z) : Prop :=
  let '(year, month, day) := date in
  1 <= month <= 12 /\ 1 <= day <= daysIn month year.

(** A day past the end of its month is replaced by the month's last day:
    the clamping the specification asks for. *)
Definition clamped (year month day : Z) : Z * Z * Z :=
  (year, month, Z.min day (daysIn month year)).

(** ** Sample values *)

(** Noon of 2026-03-31. *)
Definition noon_2026_03_31 : Time := Date 2026 3 31 12 0 0 0.

Definition sample_readings : Readings :=
  mkReadings noon_2026_03_31 noon_2026_03_31 noon_2026_03_31.

(** A platform whose library functions are the simplest ones and whose
    remote service answers every request with an empty body. *)
Definition sample_platform : Platform := {|
  strconv_Quote := fun s => (String "034" s ++ String "034" EmptyString)%string;
  strings_TrimSpace := fun s => s;
  time_Format := fun layout t => layout;
  url_Encode := fun q => EmptyString;
  doRequest := fun method endpoint => Ok EmptyString;
  os_WriteFile := fun name data => None
|}.

(** ** Vocabulary of the statements *)

(** A parameter that is present with the one value [v] when [b] holds and
    absent otherwise. *)
Definition when (b : bool) (v : string) : option (list string) :=
  if b then Some [v] else None.

(** The keys [buildListQuery] can set. *)
Definition list_query_keys : list string :=
  ["search"; "markers"; "keywords"; "types"; "categories"; "wfstatus"; "published";
   "deleted"; "owner"; "userorganisation"; "trcid"; "externalid"; "lang";
   "lastupdated"; "sort"; "sortorder"; "size"; "page"].

(** The three time flags of an event command are accepted. *)
Definition time_flags_accepted `{Platform} (clock : Readings)
    (updatedSince dateFrom dateTo : string) : Prop :=
  (exists v, parseFlag "--updated-since" (ParseRelativeISO (at_updated_since clock))
               updatedSince = Ok v)
  /\ (exists v, parseFlag "--date-from" (ParseRelativeDate (at_date_from clock))
                  dateFrom = Ok v)
  /\ (exists v, parseFlag "--date-to" (ParseRelativeDate (at_date_to clock))
                  dateTo = Ok v).

(** Options with nothing set but the ascending sort order. *)
Definition ascending_only : ListOptions.t :=
  ListOptions.mk EmptyString EmptyString EmptyString EmptyString EmptyString EmptyString
    EmptyString false EmptyString EmptyString EmptyString EmptyString EmptyString
    EmptyString EmptyString true 0 0.

Definition no_event_options : EventListOptions.t :=
  EventListOptions.mk ListOptions.zero EmptyString EmptyString EmptyString EmptyString
    EmptyString EmptyString EmptyString.

(** [events list --geo-distance 10km], with and without a malformed
    [--updated-since abc] before it. *)
Definition list_radius_only : EventsListCmd.t :=
  EventsListCmd.mk EmptyString EmptyString EmptyString EmptyString EmptyString EmptyString
    EmptyString false EmptyString EmptyString EmptyString EmptyString EmptyString
    EmptyString "modified" false 25 0 false
    EmptyString EmptyString EmptyString EmptyString EmptyString "10km".

Definition list_radius_bad_since : EventsListCmd.t :=
  EventsListCmd.mk EmptyString EmptyString EmptyString EmptyString EmptyString EmptyString
    EmptyString false EmptyString EmptyString EmptyString EmptyString EmptyString
    "abc" "modified" false 25 0 false
    EmptyString EmptyString EmptyString EmptyString EmptyString "10km".

(** [events list --geo 52.37, --geo-distance 10km]: a center with its
    longitude left empty. *)
Definition list_half_center : EventsListCmd.t :=
  EventsListCmd.mk EmptyString EmptyString EmptyString EmptyString EmptyString EmptyString
    EmptyString false EmptyString EmptyString EmptyString EmptyString EmptyString
    EmptyString "modified" false 25 0 false
    EmptyString EmptyString EmptyString EmptyString "52.37," "10km".

(** [events export -o out.xlsx --geo-distance 10km]. *)
Definition export_radius_only : EventsExportCmd.t :=
  EventsExportCmd.mk "out.xlsx" "excel" EmptyString
    EmptyString EmptyString EmptyString EmptyString EmptyString EmptyString
    EmptyString false EmptyString EmptyString EmptyString EmptyString EmptyString
    EmptyString EmptyString false
    EmptyString EmptyString EmptyString EmptyString EmptyString "10km".

(** [events export -o out.txt --format uitkrant --date-from 2026-03-01],
    the end of the range missing. *)
Definition export_uitkrant_open : EventsExportCmd.t :=
  EventsExportCmd.mk "out.txt" "uitkrant" EmptyString
    EmptyString EmptyString EmptyString EmptyString EmptyString EmptyString
    EmptyString false EmptyString EmptyString EmptyString EmptyString EmptyString
    EmptyString EmptyString false
    "2026-03-01" EmptyString EmptyString EmptyString EmptyString EmptyString.

Definition export_12345 : ExportOptions.t := ExportOptions.mk "12345" EmptyString.

(** The assignments of [buildListQuery] read as a table, in the order of the
    code: the guard, the key and the value of each [q.Set]. *)
Definition list_query_entries (opts : ListOptions.t) : list (bool * string * string) :=
  [ (nonempty (ListOptions.Search opts), "search", ListOptions.Search opts);
    (nonempty (ListOptions.Markers opts), "markers", ListOptions.Markers opts);
    (nonempty (ListOptions.Keywords opts), "keywords", ListOptions.Keywords opts);
    (nonempty (ListOptions.Types opts), "types", ListOptions.Types opts);
    (nonempty (ListOptions.Categories opts), "categories", ListOptions.Categories opts);
    (nonempty (ListOptions.WFStatus opts), "wfstatus", ListOptions.WFStatus opts);
    (nonempty (ListOptions.Published opts), "published", ListOptions.Published opts);
    (ListOptions.Deleted opts, "deleted", "true");
    (nonempty (ListOptions.Owner opts), "owner", ListOptions.Owner opts);
    (nonempty (ListOptions.UserOrg opts), "userorganisation", ListOptions.UserOrg opts);
    (nonempty (ListOptions.TRCID opts), "trcid", ListOptions.TRCID opts);
    (nonempty (ListOptions.ExternalID opts), "externalid", ListOptions.ExternalID opts);
    (nonempty (ListOptions.Language opts), "lang", ListOptions.Language opts);
    (nonempty (ListOptions.UpdatedSince opts), "lastupdated", ListOptions.UpdatedSince opts);
    (nonempty (ListOptions.Sort opts), "sort", ListOptions.Sort opts);
    (ListOptions.Asc opts, "sortorder", "asc");
    (0 <? ListOptions.Size opts, "size", Sprintf_d (ListOptions.Size opts));
    (0 <? ListOptions.Page opts, "page", Sprintf_d (ListOptions.Page opts)) ].

(** Running a table of guarded assignments over a query. *)
Definition set_entries (es : list (bool * string * string)) (q : Values) : Values :=
  fold_left (fun (q : Values) (e : bool * string * string) =>
               let '(b, k, v) := e in if b then Values_Set k v q else q) es q.

(** The value a table leaves under a key: that of the last assignment to
    the key whose guard holds. *)
Fixpoint assigned (k : string) (es : list (bool * string * string)) : option string :=
  match es with
  | [] => None
  | (b, k', v) :: rest =>
    match assigned k rest with
    | Some v' => Some v'
    | None => if (k' =? k)%string && b then Some v else None
    end
  end.

(** ** cmd/util.go *)

(** [s[:n]]: the first [n] bytes. *)
Definition prefix_bytes (n : Z) (s : string) : string := substring 0 (Z.to_nat n) s.

(** [truncate]; [None] is the run-time panic of a slice with a negative
    bound. *)
Definition truncate (s : string) (maxLen : Z) : option string :=
  if Z.of_nat (String.length s) <=? maxLen then Some s
  else if maxLen <=? 3 then
    if maxLen <? 0 then None else Some (prefix_bytes maxLen s)
  else Some (prefix_bytes (maxLen - 3) s ++ "...")%string.

Definition boolYesNo (b : bool) : string := if b then "Yes" else "No".

(** ** More of the library *)

(** [strings.ToLower] and [url.PathEscape] are taken from the environment.
    On a text of ASCII bytes [strings.ToLower] is [ascii_lower]: the letters
    [A] to [Z] become [a] to [z], every other byte stays. *)
Class Library := {
  strings_ToLower : string -> string;
  url_PathEscape : string -> string
}.

Definition lower_byte (c : ascii) : ascii :=
  let n := N_of_ascii c in
  if (65 <=? n)%N && (n <=? 90)%N then ascii_of_N (n + 32) else c.

Fixpoint ascii_lower (s : string) : string :=
  match s with
  | EmptyString => EmptyString
  | String c r => String (lower_byte c) (ascii_lower r)
  end.

Fixpoint is_ascii (s : string) : bool :=
  match s with
  | EmptyString => true
  | String c r => (N_of_ascii c <? 128)%N && is_ascii r
  end.

(** The library lower-cases ASCII text byte by byte. *)
Definition lowers_ascii `{Library} : Prop :=
  forall s, is_ascii s = true -> strings_ToLower s = ascii_lower s.

Definition sample_library : Library := {|
  strings_ToLower := ascii_lower;
  url_PathEscape := fun s => s
|}.

(** Occurrences of a byte in a text. *)
Fixpoint count_byte (c : ascii) (s : string) : nat :=
  match s with
  | EmptyString => O
  | String a r => ((if Ascii.eqb a c then 1 else 0) + count_byte c r)%nat
  end.

(** The text of [n] bytes [c]. *)
Fixpoint repeat_byte (c : ascii) (n : nat) : string :=
  match n with
  | O => EmptyString
  | S m => String c (repeat_byte c m)
  end.

(** ** internal/api: the rest of the accessors and of the client *)

Definition ResourceTypeToEndpoint `{Library} (resourceType : string) : string :=
  let l := strings_ToLower resourceType in
  if (l =? "event")%string || (l =? "events")%string then "events"
  else if (l =? "location")%string || (l =? "locations")%string then "locations"
  else if (l =? "route")%string || (l =? "routes")%string then "routes"
  else if (l =? "venue")%string || (l =? "venues")%string then "venues"
  else if (l =? "eventgroup")%string || (l =? "eventgroups")%string then "eventgroups"
  else resourceType.

Definition endpoints : list string :=
  ["events"; "locations"; "routes"; "venues"; "eventgroups"].

Definition singular_kinds : list string :=
  ["event"; "location"; "route"; "venue"; "eventgroup"].

(** The inner and the outer loop of [GetShortDescription]. *)
Fixpoint firstDescribed (lang : string) (ds : list TRCItemDetail) : option string :=
  match ds with
  | [] => None
  | d :: rest =>
    if (Lang d =? lang)%string && negb (ShortDescription d =? EmptyString)%string
    then Some (ShortDescription d)
    else firstDescribed lang rest
  end.

Fixpoint firstPreferredDescription (langs : list string) (ds : list TRCItemDetail)
    : option string :=
  match langs with
  | [] => None
  | lang :: rest =>
    match firstDescribed lang ds with
    | Some t => Some t
    | None => firstPreferredDescription rest ds
    end
  end.

Definition GetShortDescription (r : Resource) : string :=
  match TRCItemDetails r with
  | [] => EmptyString
  | d0 :: _ =>
    match firstPreferredDescription ["nl"; "en"; "de"] (TRCItemDetails r) with
    | Some t => t
    | None => ShortDescription d0
    end
  end.

(** An entry of one of the preferred languages with a short description. *)
Definition described_preferred (d : TRCItemDetail) : bool :=
  ((Lang d =? "nl")%string || (Lang d =? "en")%string || (Lang d =? "de")%string)
  && negb (ShortDescription d =? EmptyString)%string.

(** The part of [doRequest] that words the error of an answer with a status
    of 400 or more.  [decoded] is the body read as JSON, [None] when it is
    not JSON.  Decoding into a map succeeds on an object and on [null]; of a
    key given twice the last value counts. *)
Fixpoint lookup_field (key : string) (fields : list (string * json)) : option json :=
  match fields with
  | [] => None
  | (k, v) :: rest =>
    match lookup_field key rest with
    | Some v' => Some v'
    | None => if (k =? key)%string then Some v else None
    end
  end.

(** [errResp[key].(string)] with the test that the text is not empty. *)
Definition text_field (key : string) (fields : list (string * json)) : option string :=
  match lookup_field key fields with
  | Some (JString msg) => if nonempty msg then Some msg else None
  | _ => None
  end.

Definition apiErrorMessage (decoded : option json) (respBody : string) : string :=
  let errMsg :=
    match decoded with
    | Some (JObject fields) =>
      match text_field "message" fields with
      | Some msg => msg
      | None =>
        match text_field "error" fields with
        | Some msg => msg
        | None => EmptyString
        end
      end
    | _ => EmptyString
    end in
  if (errMsg =? EmptyString)%string then respBody else errMsg.

Definition apiError (status : Z) (decoded : option json) (respBody : string) : error :=
  External ("API error (" ++ Sprintf_d status ++ "): "
            ++ apiErrorMessage decoded respBody)%string.

Definition Client_DeleteResource `{Platform} `{Library} (resourceType id : string) : M unit :=
  _ <- send "DELETE" ("/" ++ resourceType ++ "/" ++ url_PathEscape id)%string ;;
  ret tt.

(** The event keys of [eventParams] read as a table. *)
Definition event_entries (opts : EventListOptions.t) : list (bool * string * string) :=
  [ (nonempty (EventListOptions.DateFrom opts), "eventDateRangeStart",
     EventListOptions.DateFrom opts);
    (nonempty (EventListOptions.DateTo opts), "eventDateRangeEnd",
     EventListOptions.DateTo opts);
    (nonempty (EventListOptions.LocationID opts), "locationId",
     EventListOptions.LocationID opts);
    (nonempty (EventListOptions.City opts), "city", EventListOptions.City opts);
    (nonempty (EventListOptions.GeoLat opts) && nonempty (EventListOptions.GeoLon opts),
     "geo", (EventListOptions.GeoLat opts ++ "," ++ EventListOptions.GeoLon opts)%string);
    (nonempty (EventListOptions.GeoDistance opts), "geodistance",
     EventListOptions.GeoDistance opts) ].

(** ** cmd: deleting an event *)

Module EventsDeleteCmd.
Record t := mk {
  ID : string;
  Force : bool
}.

(** [confirm] is what [fmt.Scanln] left in the variable it read into. *)
Definition Run `{Platform} `{Library} (c : t) (confirm : string) : M unit :=
  proceed <-
    (if negb (Force c) then
       _ <- print ("Are you sure you want to delete event " ++ ID c ++ "? [y/N] ")%string ;;
       if negb (strings_ToLower confirm =? "y")%string then
         _ <- print ("Cancelled." ++ String "010" EmptyString)%string ;;
         ret false
       else ret true
     else ret true) ;;
  if proceed : bool then
    match Client_DeleteResource "events" (ID c) with
    | (tr, Err e) => (tr, Err (Wrapped "deleting event" e))
    | (tr, Ok _) =>
      bind (tr, Ok tt)
           (fun _ => print ("Event " ++ ID c ++ " deleted." ++ String "010" EmptyString)%string)
    end
  else ret tt.
End EventsDeleteCmd.

(** ** cmd/dictionary.go: the leaf categories of the ontology *)

Record CatTranslation := mkCatTranslation {
  translation_Lang : string;
  translation_Label : string
}.

(** [ID] is a pointer in the code: [None] is nil. *)
Inductive Categorization :=
| mkCategorization (CnetID Name : string) (ID : option string) (EntityType : string)
    (Children : list Categorization) (Translations : list CatTranslation).

Record flatCat := mkFlatCat {
  flat_ID : string;
  flat_Label : string;
  flat_Parent : string
}.

(** The label of a category: that of its first translation in [lang], its
    name when it has none. *)
Fixpoint labelIn (lang : string) (name : string) (ts : list CatTranslation) : string :=
  match ts with
  | [] => name
  | t :: rest =>
    if (translation_Lang t =? lang)%string then translation_Label t
    else labelIn lang name rest
  end.

(** The closure [collect] of [DictionaryCategoriesCmd.Run]; the entries it
    appends to [categories], in order. *)
Fixpoint collect_category (lang parent : string) (cat : Categorization) : list flatCat :=
  match cat with
  | mkCategorization cnetID name id entityType children translations =>
    let label := labelIn lang name translations in
    match children with
    | _ :: _ =>
      (fix collect_all (cats : list Categorization) : list flatCat :=
         match cats with
         | [] => []
         | c :: rest => (collect_category lang label c ++ collect_all rest)%list
         end) children
    | [] =>
      if nonempty cnetID then
        [mkFlatCat
           (match id with
            | Some i => if nonempty i then i else cnetID
            | None => cnetID
            end)
           label parent]
      else []
    end
  end.

Fixpoint collect (lang parent : string) (cats : list Categorization) : list flatCat :=
  match cats with
  | [] => []
  | c :: rest => (collect_category lang parent c ++ collect lang parent rest)%list
  end.

Definition entityTypeMap (type : string) : string :=
  if (type =? "event")%string then "EVENEMENT"
  else if (type =? "location")%string then "LOCATIE"
  else if (type =? "route")%string then "ROUTE"
  else if (type =? "eventgroup")%string then "EVENEMENTGROEP"
  else EmptyString.

Definition category_entityType (cat : Categorization) : string :=
  match cat with mkCategorization _ _ _ entityType _ _ => entityType end.

(** The categories [DictionaryCategoriesCmd.Run] lists for a type filter
    and a language. *)
Definition listed_categories (type lang : string) (cats : list Categorization)
    : list flatCat :=
  let filterEntityType := entityTypeMap type in
  let topCats :=
    if nonempty filterEntityType
    then List.filter (fun cat => (category_entityType cat =? filterEntityType)%string) cats
    else cats in
  collect lang EmptyString topCats.

(** The childless categories with a [cnetID] below a list of categories. *)
Fixpoint leaves_of (cat : Categorization) : nat :=
  match cat with
  | mkCategorization cnetID _ _ _ children _ =>
    match children with
    | _ :: _ =>
      (fix leaves_all (cats : list Categorization) : nat :=
         match cats with
         | [] => O
         | c :: rest => (leaves_of c + leaves_all rest)%nat
         end) children
    | [] => if nonempty cnetID then 1%nat else O
    end
  end.

Fixpoint leaves (cats : list Categorization) : nat :=
  match cats with
  | [] => O
  | c :: rest => (leaves_of c + leaves rest)%nat
  end.

(** [events list -s jazz --markers !archived,featured]. *)
Definition list_jazz : EventsListCmd.t :=
  EventsListCmd.mk "jazz" "!archived,featured" EmptyString EmptyString EmptyString
    EmptyString EmptyString false EmptyString EmptyString EmptyString EmptyString
    EmptyString EmptyString "modified" false 25 0 false
    EmptyString EmptyString EmptyString "Utrecht" EmptyString EmptyString.

(** [events export -o out.xlsx --export-propertyids 12345]. *)
Definition export_12345_run : EventsExportCmd.t :=
  EventsExportCmd.mk "out.xlsx" "excel" "12345"
    EmptyString EmptyString EmptyString EmptyString EmptyString EmptyString
    EmptyString false EmptyString EmptyString EmptyString EmptyString EmptyString
    EmptyString EmptyString false
    EmptyString EmptyString EmptyString EmptyString EmptyString EmptyString.

(** The keys of the event parameters. *)
Definition event_query_keys : list string :=
  ["eventDateRangeStart"; "eventDateRangeEnd"; "locationId"; "city"; "geo"; "geodistance"].

(** The requests of a trace, in order. *)
Definition requests (tr : list Effect) : list Effect := List.filter is_request tr.

(** [events delete 42] with and without [--force]. *)
Definition delete_42 : EventsDeleteCmd.t := EventsDeleteCmd.mk "42" false.

(** * Lemmas *)

(** ** The runtime model on known values *)

(** The Unix epoch is 62135596800 seconds after the start of year 1. *)
Example Date_unix_epoch : Date 1970 1 1 0 0 0 0 = mkTime 62135596800 0.
Proof. reflexivity. Qed.

Example Date_october_32 : Time_Date (Date 2025 10 32 0 0 0 0) = (2025, 11, 1).
Proof. reflexivity. Qed.

(** One month after October 31 is December 1, the normal form of
    November 31. *)
Example AddDate_october_31 :
  Time_Date (AddDate (Date 2025 10 31 0 0 0 0) 0 1 0) = (2025, 12, 1).
Proof. reflexivity. Qed.

Example AddDate_leap_day :
  Time_Date (AddDate (Date 2024 2 29 8 30 0 0) 1 0 0) = (2025, 3, 1)
  /\ Time_Clock (AddDate (Date 2024 2 29 8 30 0 0) 1 0 0) = (8, 30, 0).
Proof. split; reflexivity. Qed.

Example Atoi_values :
  Atoi "123" = (123, None)
  /\ Atoi "-5" = (-5, None)
  /\ Atoi "9223372036854775807" = (max_int, None)
  /\ Atoi "9223372036854775808" = (max_int, Some ErrRange)
  /\ Atoi "12a" = (0, Some ErrSyntax)
  /\ Atoi EmptyString = (0, Some ErrSyntax).
Proof. repeat split. Qed.

Example FindStringSubmatch_values :
  relativeTimeRe_FindStringSubmatch "12mo" = Some ("12", "mo")
  /\ relativeTimeRe_FindStringSubmatch "3x" = None
  /\ relativeTimeRe_FindStringSubmatch "d" = None
  /\ relativeTimeRe_FindStringSubmatch "3d " = None
  /\ relativeTimeRe_FindStringSubmatch "-3d" = None.
Proof. repeat split. Qed.

Example Parse_values :
  Parse_2006_01_02 "2026-01-15" = Some (Date 2026 1 15 0 0 0 0)
  /\ Parse_2006_01_02 "2024-02-29" = Some (Date 2024 2 29 0 0 0 0)
  /\ Parse_2006_01_02 "2026-02-30" = None
  /\ Parse_2006_01_02 "2026-1-15" = None
  /\ Parse_2006_01_02 "2026-01-15T10:00:00" = None.
Proof. repeat split. Qed.

Example Split_values :
  strings_Split "a,,b" "," = ["a"; EmptyString; "b"]
  /\ strings_Split "abc" "," = ["abc"]
  /\ strings_SplitN_2 "52.37,4.89" "," = ["52.37"; "4.89"]
  /\ strings_SplitN_2 "1,2,3" "," = ["1"; "2,3"]
  /\ strings_SplitN_2 "52.37" "," = ["52.37"].
Proof. repeat split. Qed.

(** ** The calendar *)


Lemma isLeap_mod year :
  isLeap year = (year mod 4 =? 0) && (negb (year mod 100 =? 0) || (year mod 400 =? 0)).
Proof.
  unfold isLeap.
  assert (H : forall k, 0 < k -> (Z.rem year k =? 0) = (year mod k =? 0)).
  { intros k Hk.
    destruct (Z.eqb_spec (Z.rem year k) 0) as [E|E], (Z.eqb_spec (year mod k) 0) as [F|F];
      try reflexivity; exfalso.
    - apply Z.rem_divide in E; [|lia]. apply Z.mod_divide in E; lia.
    - apply Z.mod_divide in F; [|lia]. apply Z.rem_divide in F; lia. }
  rewrite !H by lia. reflexivity.
Qed.

Lemma yearLen_bounds year : 365 <= yearLen year <= 366.
Proof. unfold yearLen. destruct (isLeap year); lia. Qed.

Lemma daysSinceEpoch_succ year :
  daysSinceEpoch (year + 1) = daysSinceEpoch year + yearLen year.
Proof.
  unfold yearLen. rewrite isLeap_mod. unfold daysSinceEpoch. cbv zeta.
  replace (year + 1 - 1) with year by lia.
  destruct (Z.eqb_spec (year mod 4) 0); cbn [andb].
  2: { Z.to_euclidean_division_equations. lia. }
  destruct (Z.eqb_spec (year mod 100) 0); cbn [negb orb].
  2: { Z.to_euclidean_division_equations. lia. }
  destruct (Z.eqb_spec (year mod 400) 0); Z.to_euclidean_division_equations; lia.
Qed.

Lemma daysSinceEpoch_mono y y' :
  y <= y' -> daysSinceEpoch y + 365 * (y' - y) <= daysSinceEpoch y'.
Proof.
  intros H.
  replace y' with (y + Z.of_nat (Z.to_nat (y' - y))) by lia.
  generalize (Z.to_nat (y' - y)) as k. clear H. intros k. induction k as [|k IH].
  - replace (y + Z.of_nat 0) with y by lia. lia.
  - replace (y + Z.of_nat (S k)) with (y + Z.of_nat k + 1) by lia.
    rewrite daysSinceEpoch_succ.
    pose proof (yearLen_bounds (y + Z.of_nat k)). lia.
Qed.

Lemma yearOfDays_spec d :
  daysSinceEpoch (yearOfDays d) <= d < daysSinceEpoch (yearOfDays d + 1).
Proof.
  unfold yearOfDays. cbv zeta.
  set (y := 400 * d / 146097 + 1).
  assert (E : daysSinceEpoch (y - 1) <= d < daysSinceEpoch (y + 2)).
  { subst y. unfold daysSinceEpoch. Z.to_euclidean_division_equations. lia. }
  destruct (Z.ltb_spec d (daysSinceEpoch y)).
  - replace (y - 1 + 1) with y by lia. lia.
  - destruct (Z.leb_spec (daysSinceEpoch (y + 1)) d).
    + replace (y + 1 + 1) with (y + 2) by lia. lia.
    + lia.
Qed.

Lemma yearOfDays_unique d y :
  daysSinceEpoch y <= d < daysSinceEpoch (y + 1) -> yearOfDays d = y.
Proof.
  intros H. pose proof (yearOfDays_spec d) as S.
  destruct (Z.lt_trichotomy (yearOfDays d) y) as [L|[E|G]]; [|exact E|].
  - pose proof (daysSinceEpoch_mono (yearOfDays d + 1) y ltac:(lia)). lia.
  - pose proof (daysSinceEpoch_mono (y + 1) (yearOfDays d) ltac:(lia)). lia.
Qed.

Lemma norm_spec hi lo base :
  0 < base -> norm hi lo base = (hi + lo / base, lo mod base).
Proof.
  intros Hb. unfold norm.
  destruct (Z.ltb_spec lo 0) as [Hneg|Hpos].
  - rewrite Z.quot_div_nonneg by lia.
    set (n := (- lo - 1) / base + 1).
    assert (Hn : lo / base = - n /\ lo mod base = lo + n * base).
    { subst n. pose proof (Z.div_mod (- lo - 1) base ltac:(lia)) as E1.
      pose proof (Z.mod_pos_bound (- lo - 1) base Hb) as B1.
      set (q := (- lo - 1) / base) in *. set (r := (- lo - 1) mod base) in *.
      assert (E2 : lo = base * (- (q + 1)) + (base - 1 - r)) by lia.
      split.
      - symmetry. apply (Z.div_unique_pos lo base (- (q + 1)) (base - 1 - r)); lia.
      - replace (lo + (q + 1) * base) with (base - 1 - r) by lia.
        symmetry. apply (Z.mod_unique_pos lo base (- (q + 1)) (base - 1 - r)); lia. }
    destruct Hn as [Hq Hr].
    pose proof (Z.mod_pos_bound lo base Hb) as B.
    destruct (Z.leb_spec base (lo + n * base)); [lia|].
    f_equal; lia.
  - destruct (Z.leb_spec base lo) as [Hge|Hlt].
    + rewrite Z.quot_div_nonneg by lia.
      f_equal. rewrite Z.mod_eq by lia. lia.
    + rewrite Z.div_small, Z.mod_small by lia. f_equal. lia.
Qed.

Lemma norm_in_range hi lo base : 0 <= lo < base -> norm hi lo base = (hi, lo).
Proof.
  intros H. rewrite norm_spec by lia.
  rewrite Z.div_small, Z.mod_small by lia. f_equal. lia.
Qed.

Lemma monthOf_monthIndex year month :
  1 <= month <= 12 -> monthOf (monthIndex year month) = (year, month).
Proof.
  intros H. unfold monthOf, monthIndex.
  f_equal; Z.to_euclidean_division_equations; lia.
Qed.

Lemma monthOf_range i : 1 <= snd (monthOf i) <= 12.
Proof. unfold monthOf. cbn [snd]. Z.to_euclidean_division_equations. lia. Qed.

Lemma daysIn_bounds month year : 1 <= month <= 12 -> 28 <= daysIn month year <= 31.
Proof.
  intros H. unfold daysIn.
  assert (C : month = 1 \/ month = 2 \/ month = 3 \/ month = 4 \/ month = 5 \/ month = 6
              \/ month = 7 \/ month = 8 \/ month = 9 \/ month = 10 \/ month = 11
              \/ month = 12) by lia.
  destruct (isLeap year);
    repeat (destruct C as [->|C]; [vm_compute; intuition discriminate|]);
    subst; vm_compute; intuition discriminate.
Qed.

(** Case analysis on a number known to lie in 0..12. *)
Ltac cases_0_12 k :=
  let C := fresh "C" in
  assert (C : k = 0 \/ k = 1 \/ k = 2 \/ k = 3 \/ k = 4 \/ k = 5 \/ k = 6
              \/ k = 7 \/ k = 8 \/ k = 9 \/ k = 10 \/ k = 11 \/ k = 12) by lia;
  repeat (destruct C as [C|C]; [subst k|]); [..|subst k].
(** Names the quotient by 31 in the goal and bounds it. *)
Ltac name_div31 k :=
  match goal with
  | |- context [?a / 31] =>
    let H := fresh "Hdiv" in
    assert (H : 31 * (a / 31) <= a < 31 * (a / 31) + 31)
      by (Z.to_euclidean_division_equations; lia);
    set (k := a / 31) in *; clearbody k
  end.
(** Splits on the integer tests of the goal. *)
Ltac decide_tests :=
  repeat match goal with
  | |- context [?a =? ?b] =>
    destruct (Z.eqb_spec a b); cbn [fst snd andb orb negb] in *; try lia
  | |- context [?a <? ?b] =>
    destruct (Z.ltb_spec a b); cbn [fst snd andb orb negb] in *; try lia
  | |- context [?a <=? ?b] =>
    destruct (Z.leb_spec a b); cbn [fst snd andb orb negb] in *; try lia
  end.

(** Looks up the table at a known month. *)
Ltac eval_daysBefore :=
  repeat match goal with
  | |- context [daysBefore ?x] =>
    let v := eval vm_compute in (daysBefore x) in
    lazymatch v with
    | Z0 => change (daysBefore x) with v
    | Zpos _ => change (daysBefore x) with v
    end
  end.

Ltac month_case := eval_daysBefore; decide_tests; cbn [fst snd andb orb negb]; eval_daysBefore; decide_tests; try lia.

Lemma monthDay_spec year yday :
  0 <= yday < yearLen year ->
  1 <= fst (monthDay year yday) <= 12
  /\ 1 <= snd (monthDay year yday) <= daysIn (fst (monthDay year yday)) year
  /\ dayNumber year (fst (monthDay year yday)) (snd (monthDay year yday))
     = daysSinceEpoch year + yday.
Proof.
  unfold yearLen, monthDay, dayNumber, daysIn. intros H.
  destruct (isLeap year); cbn [andb] in *.
  - destruct (Z.eqb_spec yday (31 + 29 - 1)) as [->|Hne].
    + cbn [fst snd]. month_case.
    + cbv zeta.
      destruct (Z.ltb_spec (31 + 29 - 1) yday) as [Hlt|Hge];
        name_div31 k; cases_0_12 k; try lia; month_case.
  - cbv zeta. name_div31 k; cases_0_12 k; try lia; month_case.
Qed.


Lemma monthDay_unique year month day :
  1 <= month <= 12 -> 1 <= day <= daysIn month year ->
  monthDay year (dayNumber year month day - daysSinceEpoch year) = (month, day).
Proof.
  intros Hm Hd.
  set (yd := dayNumber year month day - daysSinceEpoch year).
  assert (Hyd : yd = daysBefore (month - 1)
                     + (if isLeap year && (3 <=? month) then 1 else 0) + (day - 1))
    by (unfold yd, dayNumber; lia).
  clearbody yd. unfold daysIn in Hd. unfold monthDay.
  assert (C : month = 1 \/ month = 2 \/ month = 3 \/ month = 4 \/ month = 5 \/ month = 6
              \/ month = 7 \/ month = 8 \/ month = 9 \/ month = 10 \/ month = 11
              \/ month = 12) by lia.
  destruct (isLeap year); cbn [andb] in *;
    repeat (destruct C as [C|C]; [subst month|]); try subst month;
    simpl in Hd, Hyd; subst yd;
    try (destruct (Z.eqb_spec (31 + day - 1) (31 + 29 - 1)); [f_equal; lia|]);
    repeat match goal with
    | |- (if (?a =? ?b) then _ else _) = _ => destruct (Z.eqb_spec a b); [lia|]
    end;
    cbv zeta;
    repeat match goal with
    | |- context [?a <? ?b] => destruct (Z.ltb_spec a b); [|lia]
    | |- context [?a <? ?b] => destruct (Z.ltb_spec a b); [lia|]
    end;
    name_div31 k; cases_0_12 k; try lia; month_case; f_equal; lia.
Qed.

Lemma dayNumber_shift year month day k :
  dayNumber year month (day + k) = dayNumber year month day + k.
Proof. unfold dayNumber. lia. Qed.

(** The days of a valid date stay within its year. *)
Lemma dayNumber_in_year year month day :
  1 <= month <= 12 -> 1 <= day <= daysIn month year ->
  daysSinceEpoch year <= dayNumber year month day < daysSinceEpoch (year + 1).
Proof.
  intros Hm Hd. rewrite daysSinceEpoch_succ.
  unfold dayNumber, yearLen. unfold daysIn in Hd.
  assert (C : month = 1 \/ month = 2 \/ month = 3 \/ month = 4 \/ month = 5 \/ month = 6
              \/ month = 7 \/ month = 8 \/ month = 9 \/ month = 10 \/ month = 11
              \/ month = 12) by lia.
  destruct (isLeap year); cbn [andb] in *;
    repeat (destruct C as [C|C]; [subst month|]); try subst month;
    simpl in Hd |- *; lia.
Qed.

Lemma monthOf_succ year month :
  1 <= month <= 12 ->
  monthOf (monthIndex year month + 1)
  = if month =? 12 then (year + 1, 1) else (year, month + 1).
Proof.
  intros H. unfold monthOf, monthIndex.
  destruct (Z.eqb_spec month 12); f_equal; Z.to_euclidean_division_equations; lia.
Qed.

(** The day after the last day of a month is the first of the next one. *)
Lemma dayNumber_next_month year month e :
  1 <= month <= 12 ->
  dayNumber year month (daysIn month year + e)
  = dayNumber (fst (monthOf (monthIndex year month + 1)))
              (snd (monthOf (monthIndex year month + 1))) e.
Proof.
  intros Hm. rewrite monthOf_succ by exact Hm.
  destruct (Z.eqb_spec month 12) as [->|Hne]; cbn [fst snd].
  - unfold dayNumber, daysIn. rewrite daysSinceEpoch_succ. unfold yearLen.
    destruct (isLeap year), (isLeap (year + 1)); simpl; lia.
  - unfold dayNumber, daysIn.
    assert (C : month = 1 \/ month = 2 \/ month = 3 \/ month = 4 \/ month = 5
                \/ month = 6 \/ month = 7 \/ month = 8 \/ month = 9 \/ month = 10
                \/ month = 11) by lia.
    destruct (isLeap year); cbn [andb];
      repeat (destruct C as [C|C]; [subst month|]); try subst month; simpl; lia.
Qed.

(** ** [Date], [Time_Date], [Time_Clock] and [AddDate] *)

Lemma Date_normal year month day hour min s ns :
  0 <= hour < 24 -> 0 <= min < 60 -> 0 <= s < 60 -> 0 <= ns < 10 ^ 9 ->
  Date year month day hour min s ns
  = mkTime (dayNumber (fst (monthOf (monthIndex year month)))
                      (snd (monthOf (monthIndex year month))) day * secondsPerDay
            + hour * 3600 + min * 60 + s) ns.
Proof.
  intros Hh Hmi Hs Hns. unfold Date.
  rewrite (norm_spec year (month - 1) 12) by lia.
  rewrite (norm_in_range s ns) by lia.
  rewrite (norm_in_range min s) by lia.
  rewrite (norm_in_range hour min) by lia.
  rewrite (norm_in_range day hour) by lia.
  unfold monthOf, monthIndex, dayNumber. cbn [fst snd].
  replace (12 * year + (month - 1)) with (month - 1 + year * 12) by lia.
  rewrite Z.div_add, Z.mod_add by lia.
  replace (year + (month - 1) / 12) with ((month - 1) / 12 + year) by lia.
  reflexivity.
Qed.

Lemma Time_Date_spec t :
  1 <= snd (fst (Time_Date t)) <= 12
  /\ 1 <= snd (Time_Date t) <= daysIn (snd (fst (Time_Date t))) (fst (fst (Time_Date t)))
  /\ dayNumber (fst (fst (Time_Date t))) (snd (fst (Time_Date t))) (snd (Time_Date t))
     = sec t / secondsPerDay.
Proof.
  unfold Time_Date. cbv zeta.
  set (d := sec t / secondsPerDay). set (year := yearOfDays d).
  pose proof (yearOfDays_spec d) as Hy. fold year in Hy.
  rewrite daysSinceEpoch_succ in Hy.
  pose proof (monthDay_spec year (d - daysSinceEpoch year) ltac:(lia)) as (H1 & H2 & H3).
  destruct (monthDay year (d - daysSinceEpoch year)) as [month day].
  cbn [fst snd] in *. repeat split; try lia.
Qed.

(** Every time shows a day of the calendar. *)
Lemma Time_Date_on_calendar t : on_calendar (Time_Date t).
Proof.
  pose proof (Time_Date_spec t) as (Hm & Hd & _).
  destruct (Time_Date t) as [[year month] day]. split; assumption.
Qed.

Lemma Time_Date_unique t year month day :
  1 <= month <= 12 -> 1 <= day <= daysIn month year ->
  dayNumber year month day = sec t / secondsPerDay ->
  Time_Date t = (year, month, day).
Proof.
  intros Hm Hd E. unfold Time_Date. cbv zeta. rewrite <- E.
  pose proof (dayNumber_in_year year month day Hm Hd) as R.
  rewrite (yearOfDays_unique _ year R).
  rewrite (monthDay_unique year month day Hm Hd). reflexivity.
Qed.

Lemma Time_Clock_spec t :
  0 <= fst (fst (Time_Clock t)) < 24
  /\ 0 <= snd (fst (Time_Clock t)) < 60
  /\ 0 <= snd (Time_Clock t) < 60
  /\ fst (fst (Time_Clock t)) * 3600 + snd (fst (Time_Clock t)) * 60 + snd (Time_Clock t)
     = sec t mod secondsPerDay.
Proof.
  unfold Time_Clock, secondsPerDay. cbn [fst snd].
  Z.to_euclidean_division_equations. lia.
Qed.

(** Seconds that differ by whole days show the same clock. *)
Lemma Time_Clock_same_second t t' :
  sec t mod secondsPerDay = sec t' mod secondsPerDay -> Time_Clock t = Time_Clock t'.
Proof. unfold Time_Clock. intros ->. reflexivity. Qed.

(** [AddDate] in one step: the new day number, the old time of day. *)
Lemma AddDate_sec t years months days :
  0 <= nsec t < 10 ^ 9 ->
  AddDate t years months days
  = mkTime
      (dayNumber
         (fst (monthOf (monthIndex (fst (fst (Time_Date t)) + years)
                                   (snd (fst (Time_Date t)) + months))))
         (snd (monthOf (monthIndex (fst (fst (Time_Date t)) + years)
                                   (snd (fst (Time_Date t)) + months))))
         (snd (Time_Date t) + days) * secondsPerDay
       + sec t mod secondsPerDay)
      (nsec t).
Proof.
  intros Hns. unfold AddDate.
  pose proof (Time_Clock_spec t) as (Hh & Hmi & Hs & Hc).
  destruct (Time_Date t) as [[year month] day].
  destruct (Time_Clock t) as [[hour min] s]. cbn [fst snd] in *.
  rewrite Date_normal by assumption. f_equal. lia.
Qed.

Lemma AddDate_days t k :
  0 <= nsec t < 10 ^ 9 ->
  AddDate t 0 0 k = mkTime (sec t + secondsPerDay * k) (nsec t).
Proof.
  intros Hns. rewrite AddDate_sec by assumption.
  pose proof (Time_Date_spec t) as (Hm & Hd & E).
  destruct (Time_Date t) as [[year month] day]. cbn [fst snd] in *.
  rewrite !Z.add_0_r, monthOf_monthIndex by assumption. cbn [fst snd].
  rewrite dayNumber_shift, E. f_equal.
  unfold secondsPerDay. Z.to_euclidean_division_equations. lia.
Qed.

(** The date of a time whose day number is that of a date at most three
    days past its month's end. *)
Lemma Time_Date_carried t year month day :
  1 <= month <= 12 -> 1 <= day <= 31 ->
  sec t / secondsPerDay = dayNumber year month day ->
  Time_Date t = carried year month day.
Proof.
  intros Hm Hd E. unfold carried.
  pose proof (daysIn_bounds month year Hm) as B.
  destruct (Z.leb_spec day (daysIn month year)) as [Hin|Hout].
  - apply Time_Date_unique; [assumption|lia|congruence].
  - pose proof (dayNumber_next_month year month (day - daysIn month year) Hm) as N.
    replace (daysIn month year + (day - daysIn month year)) with day in N by lia.
    pose proof (monthOf_range (monthIndex year month + 1)) as R.
    destruct (monthOf (monthIndex year month + 1)) as [year' month'].
    cbn [fst snd] in *.
    pose proof (daysIn_bounds month' year' R) as B'.
    apply Time_Date_unique; [assumption|lia|congruence].
Qed.

(** What [AddDate] does with whole months and years: the month is moved,
    the day of the month is kept where the month has it and carried into
    the next month where it has not; the time of day is untouched. *)
Lemma AddDate_months t years months :
  0 <= nsec t < 10 ^ 9 ->
  Time_Date (AddDate t years months 0)
  = carried
      (fst (monthOf (monthIndex (fst (fst (Time_Date t)) + years)
                                (snd (fst (Time_Date t)) + months))))
      (snd (monthOf (monthIndex (fst (fst (Time_Date t)) + years)
                                (snd (fst (Time_Date t)) + months))))
      (snd (Time_Date t))
  /\ Time_Clock (AddDate t years months 0) = Time_Clock t
  /\ nsec (AddDate t years months 0) = nsec t.
Proof.
  intros Hns. rewrite AddDate_sec by assumption.
  pose proof (Time_Date_spec t) as (Hm & Hd & E).
  destruct (Time_Date t) as [[year month] day]. cbn [fst snd] in *.
  pose proof (daysIn_bounds month year Hm) as B.
  pose proof (monthOf_range (monthIndex (year + years) (month + months))) as R.
  destruct (monthOf (monthIndex (year + years) (month + months))) as [Y Mo].
  cbn [fst snd] in *. rewrite Z.add_0_r.
  pose proof (Z.mod_pos_bound (sec t) secondsPerDay ltac:(reflexivity)) as Hc.
  repeat split.
  - apply Time_Date_carried; [assumption|lia|]. cbn [sec].
    rewrite Z.add_comm, Z.div_add by discriminate.
    rewrite Z.div_small by exact Hc. lia.
  - apply Time_Clock_same_second. cbn [sec].
    rewrite Z.add_comm, Z.mod_add by discriminate.
    apply Z.mod_mod. discriminate.
Qed.

(** ** Digits, the regular expression and [Atoi] *)

Lemma isDigit_val c : isDigit c = true -> 0 <= digitVal c <= 9.
Proof.
  unfold isDigit, digitVal. cbv zeta. intros H.
  apply andb_true_iff in H as [H1 H2]. lia.
Qed.

Lemma isDigit_not_sign c :
  isDigit c = true -> Ascii.eqb c "-" = false /\ Ascii.eqb c "+" = false.
Proof.
  intros H. split.
  - destruct (Ascii.eqb_spec c "-") as [->|]; [discriminate H|reflexivity].
  - destruct (Ascii.eqb_spec c "+") as [->|]; [discriminate H|reflexivity].
Qed.

Lemma is_unit_cases u :
  is_unit u = true -> u = "d" \/ u = "w" \/ u = "mo" \/ u = "y".
Proof.
  unfold is_unit. intros H.
  repeat (apply orb_true_iff in H as [H|H]);
    apply String.eqb_eq in H; auto.
Qed.

Lemma span_digits_unit u : is_unit u = true -> span_digits u = (EmptyString, u).
Proof.
  intros H. destruct (is_unit_cases u H) as [-> | [-> | [-> | ->]]]; reflexivity.
Qed.

Lemma span_digits_app ds rest :
  all_digits ds = true -> span_digits rest = (EmptyString, rest) ->
  span_digits (ds ++ rest)%string = (ds, rest).
Proof.
  intros Hd Hr. induction ds as [|c ds IH].
  - exact Hr.
  - cbn [all_digits] in Hd. apply andb_true_iff in Hd as [Hc Hd].
    change (String c ds ++ rest)%string with (String c (ds ++ rest)%string).
    cbn [span_digits]. rewrite Hc, (IH Hd). reflexivity.
Qed.

Lemma span_digits_spec s :
  s = (fst (span_digits s) ++ snd (span_digits s))%string
  /\ all_digits (fst (span_digits s)) = true.
Proof.
  induction s as [|c s [IH1 IH2]]; cbn [span_digits].
  - split; reflexivity.
  - destruct (isDigit c) eqn:Hc.
    + destruct (span_digits s) as [ds rest].
      cbn [fst snd all_digits] in *. rewrite Hc, IH2.
      split; [|reflexivity].
      change (String c ds ++ rest)%string with (String c (ds ++ rest)%string).
      congruence.
    + cbn [fst snd all_digits]. split; reflexivity.
Qed.

(** The embedded matcher accepts exactly the language of the expression,
    and its groups are the digits and the unit. *)
Lemma FindStringSubmatch_app ds u :
  ds <> EmptyString -> all_digits ds = true -> is_unit u = true ->
  relativeTimeRe_FindStringSubmatch (ds ++ u)%string = Some (ds, u).
Proof.
  intros Hne Hd Hu. unfold relativeTimeRe_FindStringSubmatch.
  rewrite (span_digits_app ds u Hd (span_digits_unit u Hu)).
  destruct ds; [congruence|]. rewrite Hu. reflexivity.
Qed.

Lemma FindStringSubmatch_Some s ds u :
  relativeTimeRe_FindStringSubmatch s = Some (ds, u) ->
  ds <> EmptyString /\ all_digits ds = true /\ is_unit u = true /\ s = (ds ++ u)%string.
Proof.
  unfold relativeTimeRe_FindStringSubmatch.
  pose proof (span_digits_spec s) as [E D].
  destruct (span_digits s) as [ds' rest]. cbn [fst snd] in *.
  destruct ds' as [|c ds']; [discriminate|].
  destruct (is_unit rest) eqn:Hu; [|discriminate].
  intros [= <- <-]. repeat split; try assumption. discriminate.
Qed.

Lemma FindStringSubmatch_matches s :
  matches_relative s <-> exists m, relativeTimeRe_FindStringSubmatch s = Some m.
Proof.
  split.
  - intros (ds & u & Hne & Hd & Hu & ->). eexists.
    apply FindStringSubmatch_app; assumption.
  - intros [[ds u] H]. exists ds, u. apply FindStringSubmatch_Some. exact H.
Qed.

Lemma decimal_from_ge acc s :
  all_digits s = true -> 0 <= acc -> acc <= decimal_from acc s.
Proof.
  revert acc. induction s as [|c s IH]; cbn [decimal_from all_digits];
    intros acc Hd Hacc; [lia|].
  apply andb_true_iff in Hd as [Hc Hd].
  pose proof (isDigit_val c Hc).
  specialize (IH (acc * 10 + digitVal c) Hd ltac:(lia)). lia.
Qed.

Lemma decimal_nonneg s : all_digits s = true -> 0 <= decimal s.
Proof. intros H. apply (decimal_from_ge 0 s H). lia. Qed.

(** On a run of digits [Atoi] yields their value, or the largest [int]
    together with a range error when the value does not fit. *)
Lemma Atoi_digits ds :
  ds <> EmptyString -> all_digits ds = true ->
  Atoi ds = if max_int <? decimal ds then (max_int, Some ErrRange)
            else (decimal ds, None).
Proof.
  intros Hne Hd. unfold Atoi.
  destruct ds as [|c r]; [congruence|].
  pose proof Hd as Hd'. cbn [all_digits] in Hd'. apply andb_true_iff in Hd' as [Hc _].
  destruct (isDigit_not_sign c Hc) as [-> ->].
  rewrite Hd. reflexivity.
Qed.

Lemma wrap_int_id z : min_int <= z <= max_int -> wrap_int z = z.
Proof.
  unfold wrap_int, min_int, max_int. intros H.
  rewrite Z.mod_small by lia. lia.
Qed.

(** The count [Atoi] hands to [ParseRelativeTime] is a non-negative [int]. *)
Lemma Atoi_digits_range ds :
  ds <> EmptyString -> all_digits ds = true -> 0 <= fst (Atoi ds) <= max_int.
Proof.
  intros Hne Hd. rewrite (Atoi_digits ds Hne Hd).
  pose proof (decimal_nonneg ds Hd).
  destruct (Z.ltb_spec max_int (decimal ds)); cbn [fst]; unfold max_int in *; lia.
Qed.

(** ** [ParseRelativeTime] on the two grammars *)

Lemma ParseRelativeTime_relative now ds u :
  ds <> EmptyString -> all_digits ds = true -> is_unit u = true ->
  ParseRelativeTime now (ds ++ u)%string
  = Ok (let n := fst (Atoi ds) in
        if (u =? "d")%string then AddDate now 0 0 (wrap_int (- n))
        else if (u =? "w")%string then AddDate now 0 0 (wrap_int (wrap_int (- n) * 7))
        else if (u =? "mo")%string then AddDate now 0 (wrap_int (- n)) 0
        else AddDate now (wrap_int (- n)) 0 0).
Proof.
  intros Hne Hd Hu. unfold ParseRelativeTime.
  rewrite (FindStringSubmatch_app ds u Hne Hd Hu).
  destruct (is_unit_cases u Hu) as [-> | [-> | [-> | ->]]]; reflexivity.
Qed.

Lemma ParseRelativeTime_no_match now s :
  relativeTimeRe_FindStringSubmatch s = None ->
  ParseRelativeTime now s
  = match Parse_2006_01_02 s with
    | Some t => Ok t
    | None => Err (InvalidTimeExpression s)
    end.
Proof. unfold ParseRelativeTime. intros ->. reflexivity. Qed.

(** An absolute date is returned as it is, whatever the clock shows. *)
Lemma ParseRelativeTime_absolute now :
  ParseRelativeTime now "2026-01-15" = Ok (Date 2026 1 15 0 0 0 0).
Proof. reflexivity. Qed.

Lemma digitChar_digitVal c : isDigit c = true -> digitChar (digitVal c) = c.
Proof.
  intros H. pose proof (isDigit_val c H) as B. unfold digitChar, digitVal in *.
  replace (48 + (Z.of_N (N_of_ascii c) - 48)) with (Z.of_N (N_of_ascii c)) by lia.
  rewrite N2Z.id. apply ascii_N_embedding.
Qed.

Lemma digitChar_spec n :
  0 <= n <= 9 -> isDigit (digitChar n) = true /\ digitVal (digitChar n) = n.
Proof.
  intros H. destruct n as [|p|p]; [split; reflexivity| |lia].
  do 4 (try match goal with
            | q : positive |- _ => destruct q; try lia
            end);
    split; reflexivity.
Qed.

Lemma pad2_two_digits a b :
  isDigit a = true -> isDigit b = true ->
  pad2 (two_digits a b) = String a (String b EmptyString).
Proof.
  intros Ha Hb. pose proof (isDigit_val a Ha). pose proof (isDigit_val b Hb).
  unfold pad2, two_digits.
  replace ((digitVal a * 10 + digitVal b) / 10) with (digitVal a)
    by (Z.to_euclidean_division_equations; lia).
  replace ((digitVal a * 10 + digitVal b) mod 10) with (digitVal b)
    by (Z.to_euclidean_division_equations; lia).
  rewrite !digitChar_digitVal by assumption. reflexivity.
Qed.

(** [time.Parse] with the layout [2006-01-02] accepts exactly the dates of
    the calendar in their [YYYY-MM-DD] spelling. *)
Lemma Parse_format_date year month day :
  valid_date year month day ->
  Parse_2006_01_02 (format_date year month day) = Some (Date year month day 0 0 0 0).
Proof.
  intros (Hy & Hm & Hd).
  pose proof (daysIn_bounds month year Hm) as B.
  unfold format_date, pad2. cbv [String.append]. unfold Parse_2006_01_02.
  destruct (digitChar_spec (year / 100 / 10)) as [D1 V1];
    [Z.to_euclidean_division_equations; lia|].
  destruct (digitChar_spec ((year / 100) mod 10)) as [D2 V2];
    [Z.to_euclidean_division_equations; lia|].
  destruct (digitChar_spec (year mod 100 / 10)) as [D3 V3];
    [Z.to_euclidean_division_equations; lia|].
  destruct (digitChar_spec ((year mod 100) mod 10)) as [D4 V4];
    [Z.to_euclidean_division_equations; lia|].
  destruct (digitChar_spec (month / 10)) as [D5 V5];
    [Z.to_euclidean_division_equations; lia|].
  destruct (digitChar_spec (month mod 10)) as [D6 V6];
    [Z.to_euclidean_division_equations; lia|].
  destruct (digitChar_spec (day / 10)) as [D7 V7];
    [Z.to_euclidean_division_equations; lia|].
  destruct (digitChar_spec (day mod 10)) as [D8 V8];
    [Z.to_euclidean_division_equations; lia|].
  rewrite D1, D2, D3, D4, D5, D6, D7, D8. cbn [andb Ascii.eqb Bool.eqb].
  unfold two_digits. rewrite V1, V2, V3, V4, V5, V6, V7, V8.
  replace (year / 100 / 10 * 10 + (year / 100) mod 10) with (year / 100)
    by (Z.to_euclidean_division_equations; lia).
  replace (year mod 100 / 10 * 10 + (year mod 100) mod 10) with (year mod 100)
    by (Z.to_euclidean_division_equations; lia).
  replace (year / 100 * 100 + year mod 100) with year
    by (Z.to_euclidean_division_equations; lia).
  replace (month / 10 * 10 + month mod 10) with month
    by (Z.to_euclidean_division_equations; lia).
  replace (day / 10 * 10 + day mod 10) with day
    by (Z.to_euclidean_division_equations; lia).
  destruct (Z.leb_spec 1 month); [|lia].
  destruct (Z.leb_spec month 12); [|lia].
  destruct (Z.leb_spec 1 day); [|lia].
  destruct (Z.leb_spec day (daysIn month year)); [|lia].
  reflexivity.
Qed.

Lemma Parse_Some_absolute s t :
  Parse_2006_01_02 s = Some t -> absolute_date s.
Proof.
  unfold Parse_2006_01_02. intros H.
  destruct s as [|y1 [|y2 [|y3 [|y4 [|s1 [|m1 [|m2 [|s2 [|d1 [|d2 [|? ?]]]]]]]]]]];
    try discriminate.
  destruct (isDigit y1) eqn:Y1; [|discriminate].
  destruct (isDigit y2) eqn:Y2; [|discriminate].
  destruct (isDigit y3) eqn:Y3; [|discriminate].
  destruct (isDigit y4) eqn:Y4; [|discriminate].
  destruct (Ascii.eqb_spec s1 "-") as [->|]; [|discriminate].
  destruct (isDigit m1) eqn:M1; [|discriminate].
  destruct (isDigit m2) eqn:M2; [|discriminate].
  destruct (Ascii.eqb_spec s2 "-") as [->|]; [|discriminate].
  destruct (isDigit d1) eqn:D1; [|discriminate].
  destruct (isDigit d2) eqn:D2; [|discriminate].
  cbn [andb] in H.
  set (year := two_digits y1 y2 * 100 + two_digits y3 y4) in *.
  set (month := two_digits m1 m2) in *. set (day := two_digits d1 d2) in *.
  destruct (Z.leb_spec 1 month); [|discriminate].
  destruct (Z.leb_spec month 12); [|discriminate].
  destruct (Z.leb_spec 1 day); [|discriminate].
  destruct (Z.leb_spec day (daysIn month year)); [|discriminate].
  pose proof (isDigit_val _ Y1). pose proof (isDigit_val _ Y2).
  pose proof (isDigit_val _ Y3). pose proof (isDigit_val _ Y4).
  assert (Hq : year / 100 = two_digits y1 y2)
    by (subst year; unfold two_digits; Z.to_euclidean_division_equations; lia).
  assert (Hr : year mod 100 = two_digits y3 y4)
    by (subst year; unfold two_digits; Z.to_euclidean_division_equations; lia).
  exists year, month, day. split.
  - unfold valid_date. repeat split; try lia; subst year; unfold two_digits; lia.
  - unfold format_date. rewrite Hq, Hr. subst month day.
    rewrite !pad2_two_digits by assumption. reflexivity.
Qed.

Lemma Parse_None_iff s : Parse_2006_01_02 s = None <-> ~ absolute_date s.
Proof.
  split.
  - intros H (year & month & day & Hv & ->).
    rewrite (Parse_format_date _ _ _ Hv) in H. discriminate.
  - intros H. destruct (Parse_2006_01_02 s) as [t|] eqn:E; [|reflexivity].
    exfalso. apply H. eapply Parse_Some_absolute. exact E.
Qed.

(** * The relative time parser *)




(** C6.  [ParseRelativeTime] fails exactly on the strings that are neither a
    relative expression nor a calendar date spelled [YYYY-MM-DD]; the error
    is the invalid-time-expression error, it carries the input, and its text
    quotes the input and lists the accepted forms.  [abc] and [3x] fail. *)
Theorem ParseRelativeTime_fails_iff `{Platform} now s :
  ((exists e, ParseRelativeTime now s = Err e)
   <-> ~ matches_relative s /\ ~ absolute_date s)
  /\ (forall e, ParseRelativeTime now s = Err e ->
        e = InvalidTimeExpression s
        /\ Error_string e
           = ("invalid time expression " ++ strconv_Quote s
              ++ " (use e.g. 3d, 2w, 1mo, 1y, or 2026-01-15)")%string)
  /\ ParseRelativeTime now "abc" = Err (InvalidTimeExpression "abc")
  /\ ParseRelativeTime now "3x" = Err (InvalidTimeExpression "3x").
Proof.
  assert (Hrel : forall m, relativeTimeRe_FindStringSubmatch s = Some m ->
                           exists t, ParseRelativeTime now s = Ok t).
  { intros [ds u] Hm.
    apply FindStringSubmatch_Some in Hm as (Hne & Hd & Hu & ->).
    rewrite ParseRelativeTime_relative by assumption. eexists. reflexivity. }
  split; [|split; [|split; reflexivity]].
  - split.
    + intros [e He]. split.
      * intros Hm. apply FindStringSubmatch_matches in Hm as [m Hm].
        destruct (Hrel m Hm) as [t Ht]. congruence.
      * destruct (relativeTimeRe_FindStringSubmatch s) as [m|] eqn:Hm.
        { destruct (Hrel m eq_refl) as [t Ht]. congruence. }
        rewrite (ParseRelativeTime_no_match now s Hm) in He.
        apply Parse_None_iff.
        destruct (Parse_2006_01_02 s); [discriminate|reflexivity].
    + intros [Hnr Hna].
      destruct (relativeTimeRe_FindStringSubmatch s) as [m|] eqn:Hm.
      { exfalso. apply Hnr. apply FindStringSubmatch_matches. eauto. }
      rewrite (ParseRelativeTime_no_match now s Hm).
      apply Parse_None_iff in Hna. rewrite Hna. eauto.
  - intros e He.
    destruct (relativeTimeRe_FindStringSubmatch s) as [m|] eqn:Hm.
    { destruct (Hrel m eq_refl) as [t Ht]. congruence. }
    rewrite (ParseRelativeTime_no_match now s Hm) in He.
    destruct (Parse_2006_01_02 s); [discriminate|].
    injection He as <-. split; reflexivity.
Qed.

(** C10.  On every string of the relative grammar [ParseRelativeTime]
    succeeds and never returns an error.  A count too large for the machine
    integer is no exception: [Atoi] reports a range error together with the
    largest integer, the error is dropped and the largest integer is the
    count that is used. *)
Theorem relative_expression_never_fails now ds u :
  ds <> EmptyString -> all_digits ds = true -> is_unit u = true ->
  (exists t, ParseRelativeTime now (ds ++ u)%string = Ok t)
  /\ (forall e, ParseRelativeTime now (ds ++ u)%string <> Err e)
  /\ (max_int < decimal ds ->
      Atoi ds = (max_int, Some ErrRange)
      /\ ParseRelativeTime now (ds ++ "d")%string = Ok (AddDate now 0 0 (- max_int))
      /\ ParseRelativeTime now (ds ++ "w")%string
         = Ok (AddDate now 0 0 (wrap_int (- max_int * 7)))
      /\ ParseRelativeTime now (ds ++ "mo")%string = Ok (AddDate now 0 (- max_int) 0)
      /\ ParseRelativeTime now (ds ++ "y")%string = Ok (AddDate now (- max_int) 0 0)).
Proof.
  intros Hne Hd Hu. split; [|split].
  - rewrite ParseRelativeTime_relative by assumption. eexists. reflexivity.
  - intros e. rewrite ParseRelativeTime_relative by assumption. discriminate.
  - intros Hbig.
    assert (HA : Atoi ds = (max_int, Some ErrRange)).
    { rewrite (Atoi_digits ds Hne Hd).
      destruct (Z.ltb_spec max_int (decimal ds)); [reflexivity|lia]. }
    assert (W : wrap_int (- max_int) = - max_int) by reflexivity.
    split; [exact HA|].
    repeat split; rewrite ParseRelativeTime_relative by (assumption || reflexivity);
      cbn [String.eqb Ascii.eqb Bool.eqb]; cbv zeta; rewrite HA; cbn [fst];
      rewrite W; reflexivity.
Qed.

Lemma relative_expression_never_fails_witness :
  (exists t, ParseRelativeTime noon_2026_03_31 "99999999999999999999d" = Ok t)
  /\ Atoi "99999999999999999999" = (max_int, Some ErrRange)
  /\ ParseRelativeTime noon_2026_03_31 "99999999999999999999d"
     = Ok (AddDate noon_2026_03_31 0 0 (- max_int)).
Proof.
  assert (Hne : "99999999999999999999" <> EmptyString) by discriminate.
  destruct (relative_expression_never_fails noon_2026_03_31
              "99999999999999999999" "d" Hne eq_refl eq_refl) as (H1 & _ & H3).
  split; [exact H1|].
  destruct H3 as (HA & HD & _); [reflexivity|].
  split; [exact HA|exact HD].
Defined.

(** * The filter normalizer *)

Lemma lookup_Values_Set key value (q : Values) k :
  Values_Set key value q !! k = if decide (key = k) then Some [value] else q !! k.
Proof. unfold Values_Set. apply lookup_insert. Qed.

Lemma lookup_cond_Set (b : bool) key value (q : Values) k :
  (if b then Values_Set key value q else q) !! k
  = if decide (key = k) then (if b then Some [value] else q !! k) else q !! k.
Proof.
  destruct b; [apply lookup_Values_Set|]. destruct (decide (key = k)); reflexivity.
Qed.

Lemma lookup_set_entries es (q : Values) k :
  set_entries es q !! k
  = match assigned k es with
    | Some v => Some [v]
    | None => q !! k
    end.
Proof.
  revert q. induction es as [|[[b k'] v] es IH]; intros q; [reflexivity|].
  cbn [set_entries fold_left assigned]. fold (set_entries es).
  rewrite IH. destruct (assigned k es); [reflexivity|].
  rewrite lookup_cond_Set.
  destruct (String.eqb_spec k' k) as [->|Hne].
  - rewrite decide_True by reflexivity. destruct b; reflexivity.
  - rewrite decide_False by exact Hne. reflexivity.
Qed.

Lemma assigned_other k es : ~ In k (map (fun e => snd (fst e)) es) -> assigned k es = None.
Proof.
  induction es as [|[[b k'] v] es IH]; intros Hk; [reflexivity|].
  cbn [assigned map In fst snd] in *.
  rewrite IH by tauto.
  destruct (String.eqb_spec k' k); [tauto|reflexivity].
Qed.

Lemma buildListQuery_entries opts :
  buildListQuery opts = set_entries (list_query_entries opts) ∅.
Proof. reflexivity. Qed.

(** The value under a key the code names. *)
Lemma buildListQuery_lookup opts k :
  buildListQuery opts !! k
  = match assigned k (list_query_entries opts) with
    | Some v => Some [v]
    | None => None
    end.
Proof. rewrite buildListQuery_entries, lookup_set_entries, lookup_empty. reflexivity. Qed.

(** Nothing under any other key. *)
Lemma buildListQuery_other opts k :
  ~ In k list_query_keys -> buildListQuery opts !! k = None.
Proof.
  intros Hk. rewrite buildListQuery_lookup, assigned_other; [reflexivity|exact Hk].
Qed.

(** A positive number is never printed as the empty text. *)
Lemma pretty_N_go_length x s :
  (String.length s <= String.length (pretty_N_go x s))%nat.
Proof.
  revert s. induction (N.lt_wf_0 x) as [x _ IH]; intros s.
  assert (C : (x = 0 \/ 0 < x)%N) by lia. destruct C as [->|Hpos].
  - rewrite pretty_N_go_0. lia.
  - rewrite pretty_N_go_step by exact Hpos.
    etransitivity; [|apply IH; apply N.div_lt; lia]. cbn. lia.
Qed.

Lemma Sprintf_d_nonempty n : 0 < n -> Sprintf_d n <> EmptyString.
Proof.
  intros Hn. destruct n as [|p|p]; try lia.
  unfold Sprintf_d, pretty, pretty_Z, pretty, pretty_positive, pretty, pretty_N.
  rewrite decide_False by discriminate.
  rewrite pretty_N_go_step by reflexivity.
  intros E.
  pose proof (pretty_N_go_length (N.pos p `div` 10)
                (String (pretty_N_char (N.pos p `mod` 10)) EmptyString)) as L.
  rewrite E in L. cbn in L. lia.
Qed.

(** Reads the table at a key the code names. *)
Ltac settle_entry :=
  unfold when;
  cbn [assigned list_query_entries String.eqb Ascii.eqb Bool.eqb andb];
  match goal with
  | |- _ = (if ?b then _ else _) => destruct b; reflexivity
  end.

(** The keys a command adds on top of [buildListQuery]. *)
Ltac settle_keys :=
  repeat (rewrite lookup_cond_Set || rewrite lookup_Values_Set);
  repeat (case_decide; [try discriminate|try congruence]).

(** C7.  Each field of the list options contributes its parameter exactly
    when it is set: a text field when it is not empty, a flag when it is
    true, [Size] and [Page] when they are strictly positive; the value is the
    field's own, never the empty text for an unset field; no other key is
    present, and the zero options give the empty query. *)
Theorem buildListQuery_presence opts :
  let q := buildListQuery opts in
  q !! "search" = when (nonempty (ListOptions.Search opts)) (ListOptions.Search opts)
  /\ q !! "markers" = when (nonempty (ListOptions.Markers opts)) (ListOptions.Markers opts)
  /\ q !! "keywords" = when (nonempty (ListOptions.Keywords opts)) (ListOptions.Keywords opts)
  /\ q !! "types" = when (nonempty (ListOptions.Types opts)) (ListOptions.Types opts)
  /\ q !! "categories"
     = when (nonempty (ListOptions.Categories opts)) (ListOptions.Categories opts)
  /\ q !! "wfstatus" = when (nonempty (ListOptions.WFStatus opts)) (ListOptions.WFStatus opts)
  /\ q !! "published"
     = when (nonempty (ListOptions.Published opts)) (ListOptions.Published opts)
  /\ q !! "deleted" = when (ListOptions.Deleted opts) "true"
  /\ q !! "owner" = when (nonempty (ListOptions.Owner opts)) (ListOptions.Owner opts)
  /\ q !! "userorganisation"
     = when (nonempty (ListOptions.UserOrg opts)) (ListOptions.UserOrg opts)
  /\ q !! "trcid" = when (nonempty (ListOptions.TRCID opts)) (ListOptions.TRCID opts)
  /\ q !! "externalid"
     = when (nonempty (ListOptions.ExternalID opts)) (ListOptions.ExternalID opts)
  /\ q !! "lang" = when (nonempty (ListOptions.Language opts)) (ListOptions.Language opts)
  /\ q !! "lastupdated"
     = when (nonempty (ListOptions.UpdatedSince opts)) (ListOptions.UpdatedSince opts)
  /\ q !! "sort" = when (nonempty (ListOptions.Sort opts)) (ListOptions.Sort opts)
  /\ q !! "sortorder" = when (ListOptions.Asc opts) "asc"
  /\ q !! "size" = when (0 <? ListOptions.Size opts) (Sprintf_d (ListOptions.Size opts))
  /\ q !! "page" = when (0 <? ListOptions.Page opts) (Sprintf_d (ListOptions.Page opts))
  /\ (forall k, ~ In k list_query_keys -> q !! k = None)
  /\ (forall k, q !! k <> Some [EmptyString])
  /\ buildListQuery ListOptions.zero = ∅.
Proof.
  cbv zeta.
  repeat (split; [rewrite buildListQuery_lookup; settle_entry|]).
  split; [apply buildListQuery_other|]. split; [|reflexivity].
  intros k.
  destruct (in_dec string_dec k list_query_keys) as [Hin|Hout].
  - cbn [In list_query_keys] in Hin.
    repeat (destruct Hin as [<-|Hin]); try contradiction;
      rewrite buildListQuery_lookup;
      cbn [assigned list_query_entries String.eqb Ascii.eqb Bool.eqb andb];
      match goal with
      | |- context [nonempty ?s] =>
        unfold nonempty; destruct (String.eqb_spec s EmptyString); cbn; congruence
      | |- context [0 <? ?n] =>
        destruct (Z.ltb_spec 0 n) as [Hpos|]; [|discriminate];
        pose proof (Sprintf_d_nonempty n Hpos); congruence
      | |- context [if ?b then _ else _] => destruct b; discriminate
      end.
  - rewrite (buildListQuery_other opts k Hout). discriminate.
Qed.

(** C3, as amended.  [Deleted] contributes [deleted=true] when it is true
    and nothing when it is false; [Asc] contributes [sortorder=asc] when it
    is true and nothing when it is false; neither key ever carries the value
    [false]. *)
Theorem boolean_fields_contribute opts :
  let q := buildListQuery opts in
  q !! "deleted" = when (ListOptions.Deleted opts) "true"
  /\ q !! "sortorder" = when (ListOptions.Asc opts) "asc"
  /\ q !! "deleted" <> Some ["false"]
  /\ q !! "sortorder" <> Some ["false"].
Proof.
  cbv zeta.
  assert (Hd : buildListQuery opts !! "deleted" = when (ListOptions.Deleted opts) "true")
    by (rewrite buildListQuery_lookup; settle_entry).
  assert (Ha : buildListQuery opts !! "sortorder" = when (ListOptions.Asc opts) "asc")
    by (rewrite buildListQuery_lookup; settle_entry).
  repeat split; try assumption.
  - rewrite Hd. unfold when. destruct (ListOptions.Deleted opts); discriminate.
  - rewrite Ha. unfold when. destruct (ListOptions.Asc opts); discriminate.
Qed.

(** With only the ascending order set the query is [sortorder=asc]: the
    flag is true and no parameter has the value [true]. *)
Lemma ascending_is_not_true :
  ListOptions.Asc ascending_only = true
  /\ buildListQuery ascending_only = {[ "sortorder" := ["asc"] ]}
  /\ buildListQuery ascending_only !! "sortorder" <> Some ["true"]
  /\ (forall k, buildListQuery ascending_only !! k <> Some ["true"]).
Proof.
  assert (E : buildListQuery ascending_only = {[ "sortorder" := ["asc"] ]})
    by reflexivity.
  split; [reflexivity|]. split; [exact E|]. rewrite E. split.
  - rewrite lookup_singleton_eq. discriminate.
  - intros k. destruct (decide ("sortorder" = k)) as [<-|Hne].
    + rewrite lookup_singleton_eq. discriminate.
    + rewrite lookup_singleton_ne by exact Hne. discriminate.
Qed.

(** * The export parameters *)

Lemma eventParams_other opts (q : Values) k :
  ~ In k ["eventDateRangeStart"; "eventDateRangeEnd"; "locationId"; "city"; "geo";
          "geodistance"] ->
  eventParams opts q !! k = q !! k.
Proof.
  intros Hk. unfold eventParams. cbv zeta.
  repeat (rewrite lookup_cond_Set).
  repeat (case_decide;
          [subst k; exfalso; apply Hk; cbn [In];
           repeat (first [left; reflexivity | right])|]).
  reflexivity.
Qed.

(** The geo parameters of an event query. *)
Lemma eventParams_geo opts (q : Values) :
  q !! "geo" = None ->
  eventParams opts q !! "geo"
  = when (nonempty (EventListOptions.GeoLat opts) && nonempty (EventListOptions.GeoLon opts))
         (EventListOptions.GeoLat opts ++ "," ++ EventListOptions.GeoLon opts)%string.
Proof.
  intros Hq. unfold eventParams, when. cbv zeta. settle_keys.
  rewrite Hq. reflexivity.
Qed.

(** C2.  A non-empty list of property ids goes out under [export_properyids]
    for venues, the misspelt key and not the correct one, and under
    [export_propertyids] for events and for locations. *)
Theorem export_property_key
    (opts : ListOptions.t) (eventOpts : EventListOptions.t) (exportOpts : ExportOptions.t) :
  nonempty (ExportOptions.PropertyIDs exportOpts) = true ->
  let ids := ExportOptions.PropertyIDs exportOpts in
  ExportVenues_query opts exportOpts !! "export_properyids" = Some [ids]
  /\ ExportVenues_query opts exportOpts !! "export_propertyids" = None
  /\ ExportEvents_query eventOpts exportOpts !! "export_propertyids" = Some [ids]
  /\ ExportEvents_query eventOpts exportOpts !! "export_properyids" = None
  /\ ExportLocations_query opts exportOpts !! "export_propertyids" = Some [ids]
  /\ ExportLocations_query opts exportOpts !! "export_properyids" = None.
Proof.
  intros Hids. cbv zeta.
  unfold ExportVenues_query, ExportEvents_query, ExportLocations_query. cbv zeta.
  rewrite Hids.
  repeat split;
    rewrite ?eventParams_other by (cbn [In]; intuition discriminate);
    settle_keys;
    try reflexivity;
    apply buildListQuery_other; cbn [In list_query_keys]; intuition discriminate.
Qed.

Lemma export_property_key_witness :
  ExportVenues_query ListOptions.zero export_12345 !! "export_properyids" = Some ["12345"]
  /\ ExportVenues_query ListOptions.zero export_12345 !! "export_propertyids" = None
  /\ ExportEvents_query no_event_options export_12345 !! "export_propertyids"
     = Some ["12345"]
  /\ ExportEvents_query no_event_options export_12345 !! "export_properyids" = None
  /\ ExportLocations_query ListOptions.zero export_12345 !! "export_propertyids"
     = Some ["12345"]
  /\ ExportLocations_query ListOptions.zero export_12345 !! "export_properyids" = None.
Proof.
  exact (export_property_key ListOptions.zero no_event_options export_12345 eq_refl).
Defined.

(** * The event commands *)

Section Commands.
Context `{Platform}.

Lemma bind_lift_Ok {A B} (a : A) (k : A -> M B) : bind (lift (Ok a)) k = k a.
Proof. unfold bind, lift. destruct (k a). reflexivity. Qed.

Lemma bind_lift_Err {A B} e (k : A -> M B) : bind (lift (Err e)) k = ([], Err e).
Proof. reflexivity. Qed.

Lemma EventsListCmd_Run_unfold c clock :
  EventsListCmd.Run c clock
  = match EventsListCmd.options c clock with
    | Ok opts => Client_ListEvents opts
    | Err e => ([], Err e)
    end.
Proof.
  unfold EventsListCmd.Run.
  destruct (EventsListCmd.options c clock) as [opts|e];
    [apply bind_lift_Ok|apply bind_lift_Err].
Qed.

Lemma EventsExportCmd_Run_unfold c clock :
  EventsExportCmd.Run c clock
  = match EventsExportCmd.checkFormat c with
    | Err e => ([], Err e)
    | Ok _ =>
      match EventsExportCmd.options c clock with
      | Err e => ([], Err e)
      | Ok opts =>
        bind (Client_ExportEvents opts
                (ExportOptions.mk (EventsExportCmd.PropertyIDs c) (EventsExportCmd.Format c)))
             (fun data =>
                bind (writeFile (EventsExportCmd.Output c) data)
                     (fun _ => print (EventsExportCmd.exported c data)))
      end
    end.
Proof.
  unfold EventsExportCmd.Run.
  destruct (EventsExportCmd.checkFormat c) as [u|e]; [|apply bind_lift_Err].
  rewrite bind_lift_Ok.
  destruct (EventsExportCmd.options c clock) as [opts|e]; [|apply bind_lift_Err].
  rewrite bind_lift_Ok. reflexivity.
Qed.

(** A run whose flags are accepted sends its one request first. *)
Lemma EventsListCmd_Run_sends c clock opts :
  EventsListCmd.options c clock = Ok opts ->
  fst (EventsListCmd.Run c clock)
  = [Request "GET" ("/events?" ++ url_Encode (ListEvents_query opts))%string].
Proof. intros E. rewrite EventsListCmd_Run_unfold, E. reflexivity. Qed.

Lemma parseGeo_empty : parseGeo EmptyString = Ok (EmptyString, EmptyString).
Proof. reflexivity. Qed.

Lemma checkGeoDistance_no_center geoDistance :
  nonempty geoDistance = true ->
  checkGeoDistance EmptyString geoDistance = Err GeoDistanceRequiresGeo.
Proof. unfold checkGeoDistance. intros ->. reflexivity. Qed.


(** C5.  An export in the uitkrant format with the start or the end of the
    date range missing stops with the range error at once: the trace of the
    run is empty, so no request was sent and no file was written. *)
Theorem uitkrant_requires_range (c : EventsExportCmd.t) clock :
  EventsExportCmd.Format c = "uitkrant" ->
  EventsExportCmd.DateFrom c = EmptyString \/ EventsExportCmd.DateTo c = EmptyString ->
  EventsExportCmd.Run c clock = ([], Err UitkrantRequiresRange)
  /\ filter is_request (fst (EventsExportCmd.Run c clock)) = []
  /\ filter is_file_write (fst (EventsExportCmd.Run c clock)) = [].
Proof.
  intros Hf Hd.
  assert (E : EventsExportCmd.Run c clock = ([], Err UitkrantRequiresRange)).
  { rewrite EventsExportCmd_Run_unfold. unfold EventsExportCmd.checkFormat.
    rewrite Hf. destruct Hd as [-> | ->]; cbn [String.eqb Ascii.eqb Bool.eqb andb orb].
    - reflexivity.
    - rewrite orb_true_r. reflexivity. }
  rewrite E. repeat split.
Qed.
End Commands.


(** The geo-distance check looks at the [--geo] flag, not at the two
    coordinates cut from it: a flag with one coordinate left empty passes the
    check, and the query then carries the distance without a center. *)
Lemma half_center_passes_check :
  exists opts,
    @EventsListCmd.options sample_platform list_half_center sample_readings = Ok opts
    /\ ListEvents_query opts !! "geo" = None
    /\ ListEvents_query opts !! "geodistance" = Some ["10km"].
Proof. eexists. split; [reflexivity|]. split; reflexivity. Qed.


Lemma uitkrant_requires_range_witness :
  @EventsExportCmd.Run sample_platform export_uitkrant_open sample_readings
  = ([], Err UitkrantRequiresRange).
Proof.
  exact (proj1 (@uitkrant_requires_range sample_platform export_uitkrant_open
                  sample_readings eq_refl (or_intror eq_refl))).
Defined.

(** * The response shapes *)

Lemma firstTitled_find lang ds :
  firstTitled lang ds = option_map Title (List.find (titled_in lang) ds).
Proof.
  induction ds as [|d ds IH]; [reflexivity|].
  cbn [firstTitled List.find]. unfold titled_in at 1.
  destruct ((Lang d =? lang)%string && negb (Title d =? EmptyString)%string);
    [reflexivity|exact IH].
Qed.

(** C8.  [GetTitle] returns the title of the first entry in Dutch that has
    one, else of the first in English, else of the first in German, else the
    title of the first entry of the list if it has one, else the dash; for
    the empty list it returns the dash. *)
Theorem GetTitle_resolution :
  (forall r, GetTitle r = resolve_title_spec (TRCItemDetails r))
  /\ GetTitle (mkResource "1" []
                 [mkDetail "en" "Foo" EmptyString EmptyString;
                  mkDetail "nl" "Bar" EmptyString EmptyString]) = "Bar"
  /\ GetTitle (mkResource "2" [] [mkDetail "de" "Baz" EmptyString EmptyString]) = "Baz"
  /\ GetTitle (mkResource "3" [] []) = "-"
  /\ GetTitle (mkResource "4" [] [mkDetail "fr" "Qux" EmptyString EmptyString]) = "Qux"
  /\ GetTitle (mkResource "5" [] [mkDetail "nl" EmptyString EmptyString EmptyString]) = "-".
Proof.
  split; [|repeat split].
  intros [id markers ds]. unfold GetTitle, resolve_title_spec. cbn [TRCItemDetails].
  destruct ds as [|d0 ds]; [reflexivity|].
  cbn [firstPreferred]. rewrite !firstTitled_find.
  destruct (List.find (titled_in "nl") (d0 :: ds)); [reflexivity|].
  destruct (List.find (titled_in "en") (d0 :: ds)); [reflexivity|].
  destruct (List.find (titled_in "de") (d0 :: ds)); [reflexivity|].
  cbn [option_map]. destruct (Title d0 =? EmptyString)%string; reflexivity.
Qed.

Lemma mapM_Unmarshal_string_JString (l : list string) :
  mapM Unmarshal_string (map JString l) = Some l.
Proof.
  induction l as [|s l IH]; [reflexivity|].
  change (mapM Unmarshal_string (map JString (s :: l)))
    with (y ← Unmarshal_string (JString s);
          k ← mapM Unmarshal_string (map JString l); mret (y :: k)).
  rewrite IH. reflexivity.
Qed.

Lemma strings_Split_nonempty s sep : strings_Split s sep <> [].
Proof.
  destruct s as [|c r]; cbn [strings_Split]; [discriminate|].
  destruct (Ascii.eqb c sep); [discriminate|].
  destruct (strings_Split r sep); discriminate.
Qed.

(** The pieces of [strings.Split], joined by the separator, are the text
    again, and no piece holds the separator. *)
Lemma strings_Join_Split s sep :
  strings_Join (strings_Split s sep) (String sep EmptyString) = s.
Proof.
  induction s as [|c r IH]; [reflexivity|].
  cbn [strings_Split].
  pose proof (strings_Split_nonempty r sep) as Hne.
  destruct (Ascii.eqb_spec c sep) as [->|Hc].
  - destruct (strings_Split r sep) as [|h t]; [congruence|].
    change (strings_Join (EmptyString :: h :: t) (String sep EmptyString))
      with (String sep (strings_Join (h :: t) (String sep EmptyString))).
    rewrite IH. reflexivity.
  - destruct (strings_Split r sep) as [|h t]; [congruence|].
    destruct t as [|h' t].
    + cbn [strings_Join] in *. rewrite IH. reflexivity.
    + change (strings_Join (String c h :: h' :: t) (String sep EmptyString))
        with (String c (h ++ String sep EmptyString
                          ++ strings_Join (h' :: t) (String sep EmptyString))%string).
      change (strings_Join (h :: h' :: t) (String sep EmptyString))
        with (h ++ String sep EmptyString
                ++ strings_Join (h' :: t) (String sep EmptyString))%string in IH.
      rewrite IH. reflexivity.
Qed.

Lemma strings_Split_pieces s sep :
  Forall (fun piece => contains_byte sep piece = false) (strings_Split s sep).
Proof.
  induction s as [|c r IH]; [repeat constructor|].
  cbn [strings_Split].
  destruct (Ascii.eqb_spec c sep) as [->|Hc].
  - constructor; [reflexivity|exact IH].
  - destruct (strings_Split r sep) as [|h t]; [repeat constructor|].
    + cbn [contains_byte]. rewrite orb_false_r. apply Ascii.eqb_neq. exact Hc.
    + inversion IH as [|? ? Hh Ht]; subst. constructor; [|exact Ht].
      cbn [contains_byte]. rewrite Hh, orb_false_r. apply Ascii.eqb_neq. exact Hc.
Qed.

(** C9.  Decoding a markers value never fails.  An array of strings gives
    the strings in their order, a non-empty string gives its pieces between
    the commas, [null] and the empty string give the empty sequence, and so
    does a value of any other shape. *)
Theorem markers_normalized :
  (forall data, snd (FlexStringSlice_UnmarshalJSON data) = None)
  /\ (forall l, FlexStringSlice_UnmarshalJSON (JArray (map JString l)) = (l, None))
  /\ (forall s, FlexStringSlice_UnmarshalJSON (JString s)
                = (if (s =? EmptyString)%string then [] else strings_Split s ",", None))
  /\ (forall s, strings_Join (strings_Split s ",") "," = s
                /\ Forall (fun piece => contains_byte "," piece = false)
                          (strings_Split s ","))
  /\ FlexStringSlice_UnmarshalJSON JNull = ([], None)
  /\ FlexStringSlice_UnmarshalJSON (JString EmptyString) = ([], None)
  /\ FlexStringSlice_UnmarshalJSON (JString "a,b,c") = (["a"; "b"; "c"], None)
  /\ FlexStringSlice_UnmarshalJSON (JArray [JString "a"; JString "b"; JString "c"])
     = (["a"; "b"; "c"], None)
  /\ FlexStringSlice_UnmarshalJSON (JNumber "7") = ([], None)
  /\ FlexStringSlice_UnmarshalJSON (JArray [JString "a"; JNumber "7"]) = ([], None).
Proof.
  split; [|split; [|split; [|split; [|repeat split]]]].
  - intros data. unfold FlexStringSlice_UnmarshalJSON.
    destruct (Unmarshal_strings data); [reflexivity|].
    destruct (Unmarshal_string data) as [s|]; [|reflexivity].
    destruct (s =? EmptyString)%string; reflexivity.
  - intros l. unfold FlexStringSlice_UnmarshalJSON. cbn [Unmarshal_strings].
    rewrite mapM_Unmarshal_string_JString. reflexivity.
  - intros s. unfold FlexStringSlice_UnmarshalJSON.
    cbn [Unmarshal_strings Unmarshal_string].
    destruct (s =? EmptyString)%string; reflexivity.
  - intros s. split; [apply (strings_Join_Split s ",")|apply strings_Split_pieces].
Qed.

(** * Further properties of the code *)

(** ** [truncate] *)

Lemma length_prefix_bytes n s :
  0 <= n <= Z.of_nat (String.length s) ->
  Z.of_nat (String.length (prefix_bytes n s)) = n.
Proof.
  unfold prefix_bytes. intros H.
  assert (G : forall k t, (k <= String.length t)%nat ->
                          String.length (substring 0 k t) = k).
  { induction k as [|k IH]; intros t Hk; destruct t as [|c t]; cbn in *;
      try reflexivity; try lia.
    rewrite IH by lia. reflexivity. }
  rewrite G by lia. lia.
Qed.

Lemma length_append_bytes s t :
  String.length (s ++ t)%string = (String.length s + String.length t)%nat.
Proof.
  induction s as [|c s IH]; [reflexivity|].
  change (String c s ++ t)%string with (String c (s ++ t)%string).
  cbn [String.length]. rewrite IH. reflexivity.
Qed.

(** X1.  With a bound that is not negative [truncate] returns a text of
    [min (len s) maxLen] bytes: the text itself when it fits, and past a bound
    of more than three bytes its first [maxLen - 3] bytes followed by three
    dots. *)
Theorem truncate_length s maxLen :
  0 <= maxLen ->
  exists r,
    truncate s maxLen = Some r
    /\ Z.of_nat (String.length r) = Z.min (Z.of_nat (String.length s)) maxLen
    /\ (Z.of_nat (String.length s) <= maxLen -> r = s)
    /\ (maxLen < Z.of_nat (String.length s) -> 3 < maxLen ->
        r = (prefix_bytes (maxLen - 3) s ++ "...")%string).
Proof.
  intros Hn. unfold truncate.
  destruct (Z.leb_spec (Z.of_nat (String.length s)) maxLen) as [Hfit|Hlong].
  - exists s. repeat split; intros; lia.
  - destruct (Z.leb_spec maxLen 3) as [Hsmall|Hbig].
    + destruct (Z.ltb_spec maxLen 0); [lia|].
      eexists. split; [reflexivity|].
      rewrite length_prefix_bytes by lia. repeat split; intros; lia.
    + eexists. split; [reflexivity|].
      rewrite length_append_bytes, Nat2Z.inj_add, length_prefix_bytes by lia.
      cbn [String.length]. repeat split; intros; lia.
Qed.

Lemma truncate_length_witness :
  truncate "Concertgebouw" 10 = Some "Concert..."
  /\ truncate "Concertgebouw" 40 = Some "Concertgebouw"
  /\ truncate "Concertgebouw" 2 = Some "Co".
Proof.
  destruct (truncate_length "Concertgebouw" 10 ltac:(discriminate))
    as (r & E & _ & _ & Hr).
  split; [|split; reflexivity].
  rewrite E, (Hr eq_refl eq_refl). reflexivity.
Defined.

(** X2.  [truncate] panics exactly on a negative bound, and truncating twice
    with the same bound is truncating once. *)
Theorem truncate_idempotent s maxLen :
  (truncate s maxLen = None <-> maxLen < 0)
  /\ (forall r, truncate s maxLen = Some r -> truncate r maxLen = Some r).
Proof.
  split.
  - unfold truncate.
    destruct (Z.leb_spec (Z.of_nat (String.length s)) maxLen);
      [split; [discriminate|lia]|].
    destruct (Z.leb_spec maxLen 3); [|split; [discriminate|lia]].
    destruct (Z.ltb_spec maxLen 0); split; try discriminate; try lia; reflexivity.
  - intros r E.
    assert (Hfit : Z.of_nat (String.length r) <= maxLen).
    { unfold truncate in E.
      destruct (Z.leb_spec (Z.of_nat (String.length s)) maxLen) as [Hfit|Hlong].
      - injection E as <-. exact Hfit.
      - destruct (Z.leb_spec maxLen 3).
        + destruct (Z.ltb_spec maxLen 0); [discriminate|].
          injection E as <-. rewrite length_prefix_bytes by lia. lia.
        + injection E as <-.
          rewrite length_append_bytes, Nat2Z.inj_add, length_prefix_bytes by lia.
          cbn [String.length]. lia. }
    unfold truncate.
    destruct (Z.leb_spec (Z.of_nat (String.length r)) maxLen); [reflexivity|lia].
Qed.

(** ** [ResourceTypeToEndpoint] *)

Section Endpoints.
Context `{Library}.
Hypothesis lower : lowers_ascii.

Lemma ascii_lower_app s t : ascii_lower (s ++ t) = (ascii_lower s ++ ascii_lower t)%string.
Proof.
  induction s as [|c s IH]; [reflexivity|].
  change (String c s ++ t)%string with (String c (s ++ t)%string).
  cbn [ascii_lower]. rewrite IH. reflexivity.
Qed.

Lemma is_ascii_app s t : is_ascii (s ++ t) = is_ascii s && is_ascii t.
Proof.
  induction s as [|c s IH]; [reflexivity|].
  change (String c s ++ t)%string with (String c (s ++ t)%string).
  cbn [is_ascii]. rewrite IH, andb_assoc. reflexivity.
Qed.

(** An endpoint is mapped to itself. *)
Lemma ResourceTypeToEndpoint_endpoint e :
  In e endpoints -> ResourceTypeToEndpoint e = e.
Proof.
  intros Hin. unfold ResourceTypeToEndpoint. cbv zeta.
  cbn [In endpoints] in Hin.
  destruct Hin as [<-|[<-|[<-|[<-|[<-|[]]]]]];
    match goal with
    | |- context [strings_ToLower ?e] => rewrite (lower e eq_refl)
    end; reflexivity.
Qed.

Lemma ResourceTypeToEndpoint_cases x :
  ResourceTypeToEndpoint x = x \/ In (ResourceTypeToEndpoint x) endpoints.
Proof.
  unfold ResourceTypeToEndpoint. cbv zeta. cbn [In endpoints].
  repeat match goal with
         | |- context [if ?b then _ else _] => destruct b; [right; tauto|]
         end.
  left. reflexivity.
Qed.

(** X3.  [ResourceTypeToEndpoint] returns its argument or one of the five
    endpoints, and applying it to its own result changes nothing.  An ASCII
    spelling of a kind in the singular, in whatever letter case, goes to the
    same endpoint as that spelling with an [s] after it: the kind in lower
    case with the [s]. *)
Theorem ResourceTypeToEndpoint_idempotent x :
  (ResourceTypeToEndpoint x = x \/ In (ResourceTypeToEndpoint x) endpoints)
  /\ ResourceTypeToEndpoint (ResourceTypeToEndpoint x) = ResourceTypeToEndpoint x
  /\ (is_ascii x = true -> In (ascii_lower x) singular_kinds ->
      ResourceTypeToEndpoint x = (ascii_lower x ++ "s")%string
      /\ ResourceTypeToEndpoint (x ++ "s")%string = ResourceTypeToEndpoint x).
Proof.
  split; [apply ResourceTypeToEndpoint_cases|]. split.
  - destruct (ResourceTypeToEndpoint_cases x) as [E|Hin].
    + rewrite E. exact E.
    + apply ResourceTypeToEndpoint_endpoint. exact Hin.
  - intros Ha Hk.
    assert (Hs : is_ascii (x ++ "s") = true)
      by (rewrite is_ascii_app, Ha; reflexivity).
    unfold ResourceTypeToEndpoint. cbv zeta.
    rewrite (lower _ Ha), (lower _ Hs), ascii_lower_app.
    cbn [In singular_kinds] in Hk.
    destruct Hk as [<-|[<-|[<-|[<-|[<-|[]]]]]]; split; reflexivity.
Qed.
End Endpoints.

Lemma ResourceTypeToEndpoint_idempotent_witness :
  @ResourceTypeToEndpoint sample_library "Venue" = "venues"
  /\ @ResourceTypeToEndpoint sample_library "Venues" = "venues"
  /\ @ResourceTypeToEndpoint sample_library "Podcast" = "Podcast".
Proof.
  destruct (@ResourceTypeToEndpoint_idempotent sample_library (fun s _ => eq_refl) "Venue")
    as (_ & _ & Hk).
  destruct (Hk eq_refl ltac:(cbn; tauto)) as [E1 E2].
  split; [exact E1|split; reflexivity].
Defined.

(** ** Titles and short descriptions *)

Lemma firstTitled_Some lang ds t :
  firstTitled lang ds = Some t ->
  t <> EmptyString /\ exists d, In d ds /\ Title d = t /\ Lang d = lang.
Proof.
  induction ds as [|d ds IH]; [discriminate|].
  cbn [firstTitled].
  destruct (String.eqb_spec (Lang d) lang) as [El|]; cbn [andb].
  - destruct (String.eqb_spec (Title d) EmptyString) as [|Et]; cbn [negb].
    + intros E. destruct (IH E) as (Hne & d' & Hin & Ht & Hl).
      split; [exact Hne|]. exists d'. cbn [In]. auto.
    + intros [= <-]. split; [exact Et|]. exists d. cbn [In]. auto.
  - intros E. destruct (IH E) as (Hne & d' & Hin & Ht & Hl).
    split; [exact Hne|]. exists d'. cbn [In]. auto.
Qed.

Lemma firstPreferred_Some langs ds t :
  firstPreferred langs ds = Some t ->
  t <> EmptyString /\ exists d, In d ds /\ Title d = t /\ In (Lang d) langs.
Proof.
  induction langs as [|lang langs IH]; [discriminate|].
  cbn [firstPreferred].
  destruct (firstTitled lang ds) as [t'|] eqn:E.
  - intros [= <-]. destruct (firstTitled_Some _ _ _ E) as (Hne & d & Hin & Ht & Hl).
    split; [exact Hne|]. exists d. cbn [In]. auto.
  - intros E'. destruct (IH E') as (Hne & d & Hin & Ht & Hl).
    split; [exact Hne|]. exists d. cbn [In]. auto.
Qed.

(** X4.  [GetTitle] never returns the empty text: it returns the dash, or a
    non-empty title of an entry of the list; and it returns a title in Dutch,
    English or German whenever an entry in one of them has a title. *)
Theorem GetTitle_never_empty r :
  GetTitle r <> EmptyString
  /\ (GetTitle r = "-"
      \/ exists d, In d (TRCItemDetails r) /\ Title d = GetTitle r)
  /\ ((exists d, In d (TRCItemDetails r)
                 /\ In (Lang d) ["nl"; "en"; "de"] /\ Title d <> EmptyString) ->
      exists d, In d (TRCItemDetails r)
                /\ In (Lang d) ["nl"; "en"; "de"] /\ Title d = GetTitle r).
Proof.
  destruct r as [id markers ds]. unfold GetTitle. cbn [TRCItemDetails].
  destruct ds as [|d0 ds].
  { split; [discriminate|]. split; [left; reflexivity|].
    intros (d & [] & _). }
  destruct (firstPreferred ["nl"; "en"; "de"] (d0 :: ds)) as [t|] eqn:E.
  - destruct (firstPreferred_Some _ _ _ E) as (Hne & d & Hin & Ht & Hl).
    split; [exact Hne|]. split; [right|intros _]; exists d; auto.
  - split; [|split].
    + destruct (String.eqb_spec (Title d0) EmptyString); cbn [negb];
        [discriminate|assumption].
    + destruct (String.eqb_spec (Title d0) EmptyString); cbn [negb];
        [left; reflexivity|right; exists d0; cbn [In]; auto].
    + intros (d & Hin & Hl & Ht). exfalso.
      assert (G : forall lang, In lang ["nl"; "en"; "de"] ->
                               firstTitled lang (d0 :: ds) = None).
      { cbn [firstPreferred] in E. intros lang Hlang.
        destruct (firstTitled "nl" (d0 :: ds)) eqn:E1; [discriminate|].
        destruct (firstTitled "en" (d0 :: ds)) eqn:E2; [discriminate|].
        destruct (firstTitled "de" (d0 :: ds)) eqn:E3; [discriminate|].
        cbn [In] in Hlang. destruct Hlang as [<-|[<-|[<-|[]]]]; assumption. }
      specialize (G (Lang d) Hl). revert G Hin. generalize (d0 :: ds) as l.
      induction l as [|d' l IH]; cbn [In firstTitled]; [tauto|].
      intros G [->|Hin].
      * rewrite String.eqb_refl in G.
        destruct (String.eqb_spec (Title d) EmptyString); [contradiction|discriminate].
      * destruct ((Lang d' =? Lang d)%string && negb (Title d' =? EmptyString)%string);
          [discriminate|auto].
Qed.

Lemma firstDescribed_Some lang ds t :
  firstDescribed lang ds = Some t ->
  t <> EmptyString /\ exists d, In d ds /\ ShortDescription d = t /\ Lang d = lang.
Proof.
  induction ds as [|d ds IH]; [discriminate|].
  cbn [firstDescribed].
  destruct (String.eqb_spec (Lang d) lang) as [El|]; cbn [andb].
  - destruct (String.eqb_spec (ShortDescription d) EmptyString) as [|Et]; cbn [negb].
    + intros E. destruct (IH E) as (Hne & d' & Hin & Ht & Hl).
      split; [exact Hne|]. exists d'. cbn [In]. auto.
    + intros [= <-]. split; [exact Et|]. exists d. cbn [In]. auto.
  - intros E. destruct (IH E) as (Hne & d' & Hin & Ht & Hl).
    split; [exact Hne|]. exists d'. cbn [In]. auto.
Qed.

Lemma firstDescribed_None lang ds :
  firstDescribed lang ds = None ->
  forallb (fun d => negb ((Lang d =? lang)%string
                          && negb (ShortDescription d =? EmptyString)%string)) ds = true.
Proof.
  induction ds as [|d ds IH]; [reflexivity|].
  cbn [firstDescribed forallb].
  destruct ((Lang d =? lang)%string && negb (ShortDescription d =? EmptyString)%string);
    [discriminate|]. intros E. rewrite (IH E). reflexivity.
Qed.

Lemma firstPreferredDescription_Some langs ds t :
  firstPreferredDescription langs ds = Some t ->
  t <> EmptyString
  /\ exists d, In d ds /\ ShortDescription d = t /\ In (Lang d) langs.
Proof.
  induction langs as [|lang langs IH]; [discriminate|].
  cbn [firstPreferredDescription].
  destruct (firstDescribed lang ds) as [t'|] eqn:E.
  - intros [= <-]. destruct (firstDescribed_Some _ _ _ E) as (Hne & d & Hin & Ht & Hl).
    split; [exact Hne|]. exists d. cbn [In]. auto.
  - intros E'. destruct (IH E') as (Hne & d & Hin & Ht & Hl).
    split; [exact Hne|]. exists d. cbn [In]. auto.
Qed.

(** X5.  [GetShortDescription] returns the empty text or a short description
    of an entry of the list.  It is empty exactly when the list is empty, or
    when no entry in Dutch, English or German has a short description and
    the first entry of the list has none either: unlike the title it has no
    placeholder, and past the first entry it does not look at entries in
    other languages. *)
Theorem GetShortDescription_empty_iff r :
  (GetShortDescription r = EmptyString
   \/ exists d, In d (TRCItemDetails r) /\ ShortDescription d = GetShortDescription r)
  /\ (GetShortDescription r = EmptyString <->
      match TRCItemDetails r with
      | [] => True
      | d0 :: _ =>
        existsb described_preferred (TRCItemDetails r) = false
        /\ ShortDescription d0 = EmptyString
      end).
Proof.
  destruct r as [id markers ds]. unfold GetShortDescription. cbn [TRCItemDetails].
  destruct ds as [|d0 ds]; [split; [left; reflexivity|tauto]|].
  destruct (firstPreferredDescription ["nl"; "en"; "de"] (d0 :: ds)) as [t|] eqn:E.
  - pose proof (firstPreferredDescription_Some _ _ _ E) as G.
    destruct G as (Hne & d & Hin & Hd & Hl).
    split; [right; exists d; auto|].
    split; [contradiction|]. intros [Hex _]. exfalso.
    assert (Hp : described_preferred d = true).
    { unfold described_preferred. rewrite Hd.
      destruct (String.eqb_spec t EmptyString); [contradiction|].
      cbn [In] in Hl. destruct Hl as [<-|[<-|[<-|[]]]]; reflexivity. }
    assert (Hx : existsb described_preferred (d0 :: ds) = true)
      by (apply existsb_exists; exists d; auto).
    congruence.
  - split; [right; exists d0; cbn [In]; auto|].
    split; [|tauto]. intros Hd0. split; [|exact Hd0].
    cbn [firstPreferredDescription] in E.
    destruct (firstDescribed "nl" (d0 :: ds)) eqn:E1; [discriminate|].
    destruct (firstDescribed "en" (d0 :: ds)) eqn:E2; [discriminate|].
    destruct (firstDescribed "de" (d0 :: ds)) eqn:E3; [discriminate|].
    apply firstDescribed_None in E1, E2, E3.
    revert E1 E2 E3. generalize (d0 :: ds) as l.
    induction l as [|d l IH]; [reflexivity|].
    cbn [forallb existsb]. intros E1 E2 E3.
    apply andb_true_iff in E1 as [A1 E1].
    apply andb_true_iff in E2 as [A2 E2].
    apply andb_true_iff in E3 as [A3 E3].
    rewrite (IH E1 E2 E3), orb_false_r. unfold described_preferred.
    destruct (Lang d =? "nl")%string, (Lang d =? "en")%string, (Lang d =? "de")%string,
      (ShortDescription d =? EmptyString)%string; cbn in *; congruence.
Qed.

(** ** More on the relative time parser *)

Lemma FindStringSubmatch_format_date year month day :
  valid_date year month day ->
  relativeTimeRe_FindStringSubmatch (format_date year month day) = None.
Proof.
  intros (Hy & Hm & Hd).
  unfold format_date, pad2. cbv [String.append].
  destruct (digitChar_spec (year / 100 / 10)) as [D1 _];
    [Z.to_euclidean_division_equations; lia|].
  destruct (digitChar_spec ((year / 100) mod 10)) as [D2 _];
    [Z.to_euclidean_division_equations; lia|].
  destruct (digitChar_spec (year mod 100 / 10)) as [D3 _];
    [Z.to_euclidean_division_equations; lia|].
  destruct (digitChar_spec ((year mod 100) mod 10)) as [D4 _];
    [Z.to_euclidean_division_equations; lia|].
  unfold relativeTimeRe_FindStringSubmatch. cbn [span_digits].
  rewrite D1, D2, D3, D4.
  change (isDigit "-") with false. cbv iota. reflexivity.
Qed.

Lemma Time_Date_Date year month day :
  1 <= month <= 12 -> 1 <= day <= daysIn month year ->
  Time_Date (Date year month day 0 0 0 0) = (year, month, day)
  /\ Time_Clock (Date year month day 0 0 0 0) = (0, 0, 0).
Proof.
  intros Hm Hd. rewrite Date_normal by lia.
  rewrite monthOf_monthIndex by assumption. cbn [fst snd].
  split.
  - apply Time_Date_unique; try assumption. cbn [sec].
    rewrite !Z.add_0_r. symmetry. apply Z.div_mul. discriminate.
  - unfold Time_Clock. cbn [sec]. rewrite !Z.add_0_r, Z.mod_mul by discriminate.
    reflexivity.
Qed.

(** X6.  On the [YYYY-MM-DD] spelling of a calendar date [ParseRelativeTime]
    returns midnight of that date, whatever the clock shows: the result has
    that year, month and day, the time of day 00:00:00 and no nanoseconds. *)
Theorem absolute_date_is_midnight now year month day :
  valid_date year month day ->
  exists t,
    ParseRelativeTime now (format_date year month day) = Ok t
    /\ Time_Date t = (year, month, day)
    /\ Time_Clock t = (0, 0, 0)
    /\ nsec t = 0.
Proof.
  intros Hv. exists (Date year month day 0 0 0 0).
  rewrite (ParseRelativeTime_no_match now _ (FindStringSubmatch_format_date _ _ _ Hv)).
  rewrite (Parse_format_date _ _ _ Hv).
  destruct Hv as (_ & Hm & Hd).
  destruct (Time_Date_Date year month day Hm Hd) as [E1 E2].
  repeat split; try assumption.
  rewrite Date_normal by lia. reflexivity.
Qed.

Lemma absolute_date_is_midnight_witness :
  exists t,
    ParseRelativeTime noon_2026_03_31 "2024-02-29" = Ok t
    /\ Time_Date t = (2024, 2, 29)
    /\ Time_Clock t = (0, 0, 0)
    /\ nsec t = 0.
Proof.
  apply (absolute_date_is_midnight noon_2026_03_31 2024 2 29).
  vm_compute. intuition discriminate.
Defined.

(** X7.  A count of weeks is seven times that count of days: where the
    number of days fits the machine integer, [n w] and [7n d] give the same
    result. *)
Theorem weeks_are_seven_days now dw dd :
  dw <> EmptyString -> all_digits dw = true ->
  dd <> EmptyString -> all_digits dd = true ->
  decimal dd = 7 * decimal dw -> decimal dd <= max_int ->
  ParseRelativeTime now (dw ++ "w")%string = ParseRelativeTime now (dd ++ "d")%string.
Proof.
  intros Hnw Hw Hnd Hd E Hfit.
  pose proof (decimal_nonneg dw Hw) as Pw.
  rewrite !ParseRelativeTime_relative by (assumption || reflexivity).
  cbn [String.eqb Ascii.eqb Bool.eqb]. cbv zeta.
  rewrite (Atoi_digits dw Hnw Hw), (Atoi_digits dd Hnd Hd).
  destruct (Z.ltb_spec max_int (decimal dw)); [lia|].
  destruct (Z.ltb_spec max_int (decimal dd)); [lia|].
  cbn [fst]. unfold max_int, min_int in *.
  rewrite (wrap_int_id (- decimal dw)) by (unfold max_int, min_int; lia).
  rewrite (wrap_int_id (- decimal dw * 7)) by (unfold max_int, min_int; lia).
  rewrite (wrap_int_id (- decimal dd)) by (unfold max_int, min_int; lia).
  do 2 f_equal. lia.
Qed.

Lemma weeks_are_seven_days_witness :
  ParseRelativeTime noon_2026_03_31 "2w" = ParseRelativeTime noon_2026_03_31 "14d".
Proof.
  apply (weeks_are_seven_days noon_2026_03_31 "2" "14");
    try discriminate; reflexivity.
Defined.

(** X8.  A count of years is twelve times that count of months: where the
    number of months fits the machine integer, [12n mo] and [n y] give the
    same result, day carried over the month's end included. *)
Theorem years_are_twelve_months now dm dy :
  dm <> EmptyString -> all_digits dm = true ->
  dy <> EmptyString -> all_digits dy = true ->
  0 <= nsec now < 10 ^ 9 ->
  decimal dm = 12 * decimal dy -> decimal dm <= max_int ->
  ParseRelativeTime now (dm ++ "mo")%string = ParseRelativeTime now (dy ++ "y")%string.
Proof.
  intros Hnm Hm Hny Hy Hns E Hfit.
  pose proof (decimal_nonneg dy Hy) as Py.
  rewrite !ParseRelativeTime_relative by (assumption || reflexivity).
  cbn [String.eqb Ascii.eqb Bool.eqb]. cbv zeta.
  rewrite (Atoi_digits dm Hnm Hm), (Atoi_digits dy Hny Hy).
  destruct (Z.ltb_spec max_int (decimal dm)); [lia|].
  destruct (Z.ltb_spec max_int (decimal dy)); [lia|].
  cbn [fst].
  rewrite (wrap_int_id (- decimal dm)) by (unfold max_int, min_int in *; lia).
  rewrite (wrap_int_id (- decimal dy)) by (unfold max_int, min_int in *; lia).
  rewrite !AddDate_sec by assumption.
  destruct (Time_Date now) as [[year month] day]. cbn [fst snd].
  replace (monthIndex (year + 0) (month + - decimal dm))
    with (monthIndex (year + - decimal dy) (month + 0))
    by (unfold monthIndex; lia).
  reflexivity.
Qed.

Lemma years_are_twelve_months_witness :
  ParseRelativeTime noon_2026_03_31 "24mo" = ParseRelativeTime noon_2026_03_31 "2y".
Proof.
  apply (years_are_twelve_months noon_2026_03_31 "24" "2");
    try discriminate; try reflexivity.
  vm_compute. intuition discriminate.
Defined.

(** The day number of the first day of the month with a given index. *)
Lemma monthIndex_monthOf j : monthIndex (fst (monthOf j)) (snd (monthOf j)) = j.
Proof. unfold monthIndex, monthOf. cbn [fst snd]. Z.to_euclidean_division_equations. lia. Qed.

Lemma first_day_next_month j :
  dayNumber (fst (monthOf (j + 1))) (snd (monthOf (j + 1))) 1
  = dayNumber (fst (monthOf j)) (snd (monthOf j)) 1
    + daysIn (snd (monthOf j)) (fst (monthOf j)).
Proof.
  pose proof (dayNumber_next_month (fst (monthOf j)) (snd (monthOf j)) 1
                (monthOf_range j)) as N.
  rewrite monthIndex_monthOf in N. rewrite <- N.
  rewrite <- dayNumber_shift. f_equal. lia.
Qed.

Lemma first_day_monotone j k :
  0 <= k ->
  dayNumber (fst (monthOf (j - k))) (snd (monthOf (j - k))) 1
  <= dayNumber (fst (monthOf j)) (snd (monthOf j)) 1.
Proof.
  intros Hk. revert j. pattern k. apply natlike_ind; [|clear k Hk|exact Hk].
  - intros j. rewrite Z.sub_0_r. lia.
  - intros k Hk IH j.
    specialize (IH j).
    pose proof (first_day_next_month (j - Z.succ k)) as S.
    replace (j - Z.succ k + 1) with (j - k) in S by lia.
    pose proof (daysIn_bounds _ (fst (monthOf (j - Z.succ k)))
                  (monthOf_range (j - Z.succ k))).
    lia.
Qed.

(** Moving the month back never moves the instant forward. *)
Lemma AddDate_months_back t years months :
  0 <= nsec t < 10 ^ 9 -> years <= 0 -> months <= 0 ->
  sec (AddDate t years months 0) <= sec t.
Proof.
  intros Hns Hy Hmo. rewrite AddDate_sec by assumption. cbn [sec].
  pose proof (Time_Date_spec t) as (Hm & Hd & E).
  destruct (Time_Date t) as [[year month] day]. cbn [fst snd] in *.
  rewrite Z.add_0_r.
  pose proof (first_day_monotone (monthIndex year month) (- (12 * years + months))
                ltac:(lia)) as Mono.
  rewrite monthOf_monthIndex in Mono by assumption. cbn [fst snd] in Mono.
  replace (monthIndex year month - - (12 * years + months))
    with (monthIndex (year + years) (month + months)) in Mono
    by (unfold monthIndex; lia).
  set (Y := fst (monthOf (monthIndex (year + years) (month + months)))) in *.
  set (Mo := snd (monthOf (monthIndex (year + years) (month + months)))) in *.
  assert (S1 : dayNumber Y Mo day = dayNumber Y Mo 1 + (day - 1))
    by (rewrite <- dayNumber_shift; f_equal; lia).
  assert (S2 : dayNumber year month day = dayNumber year month 1 + (day - 1))
    by (rewrite <- dayNumber_shift; f_equal; lia).
  unfold secondsPerDay in *.
  pose proof (Z.div_mod (sec t) 86400 ltac:(discriminate)). lia.
Qed.



(** ** The event query and the export queries *)

Lemma eventParams_lookup opts (q : Values) k :
  eventParams opts q !! k
  = match assigned k (event_entries opts) with
    | Some v => Some [v]
    | None => q !! k
    end.
Proof.
  change (eventParams opts q) with (set_entries (event_entries opts) q).
  apply lookup_set_entries.
Qed.

Lemma assigned_event_other opts k :
  ~ In k event_query_keys -> assigned k (event_entries opts) = None.
Proof. intros Hk. apply assigned_other. exact Hk. Qed.

Ltac settle_event_entry :=
  rewrite eventParams_lookup; unfold when;
  cbn [assigned event_entries String.eqb Ascii.eqb Bool.eqb andb];
  match goal with
  | |- _ = (if ?b then _ else _) =>
    destruct b; [reflexivity|];
    apply buildListQuery_other; cbn [In list_query_keys]; intuition discriminate
  end.

(** X10.  The query of [ListEvents] holds each of the six event keys exactly
    when its option is set: the two date bounds, the location and the city
    when they are not empty, [geo] when both coordinates are, and
    [geodistance] whenever the distance is not empty, whether or not [geo] is
    there.  Under the keys of the list options it holds what [buildListQuery]
    put there, and it holds nothing under any other key. *)
Theorem ListEvents_query_keys opts :
  let q := ListEvents_query opts in
  q !! "eventDateRangeStart"
  = when (nonempty (EventListOptions.DateFrom opts)) (EventListOptions.DateFrom opts)
  /\ q !! "eventDateRangeEnd"
     = when (nonempty (EventListOptions.DateTo opts)) (EventListOptions.DateTo opts)
  /\ q !! "locationId"
     = when (nonempty (EventListOptions.LocationID opts)) (EventListOptions.LocationID opts)
  /\ q !! "city" = when (nonempty (EventListOptions.City opts)) (EventListOptions.City opts)
  /\ q !! "geo"
     = when (nonempty (EventListOptions.GeoLat opts) && nonempty (EventListOptions.GeoLon opts))
            (EventListOptions.GeoLat opts ++ "," ++ EventListOptions.GeoLon opts)%string
  /\ q !! "geodistance"
     = when (nonempty (EventListOptions.GeoDistance opts)) (EventListOptions.GeoDistance opts)
  /\ (forall k, ~ In k event_query_keys ->
                q !! k = buildListQuery (EventListOptions.ListOptions opts) !! k)
  /\ (forall k, ~ In k event_query_keys -> ~ In k list_query_keys -> q !! k = None).
Proof.
  cbv zeta. unfold ListEvents_query.
  repeat (split; [settle_event_entry|]).
  split.
  - intros k Hk. rewrite eventParams_lookup, (assigned_event_other opts k Hk). reflexivity.
  - intros k Hk Hl. rewrite eventParams_lookup, (assigned_event_other opts k Hk).
    apply buildListQuery_other. exact Hl.
Qed.

(** X11.  An export query is the list query with the format added.  For
    events the format is the one asked for, [excel] when none is; for the
    other kinds it is [excel].  Events, locations and venues add the property
    ids under their key when there are any; every other key holds what the
    list query holds. *)
Theorem export_query_is_list_query k :
  (forall opts exportOpts,
      ExportEvents_query opts exportOpts !! k
      = if (k =? "format")%string
        then Some [if (ExportOptions.Format exportOpts =? EmptyString)%string
                   then "excel" else ExportOptions.Format exportOpts]
        else if (k =? "export_propertyids")%string
             && nonempty (ExportOptions.PropertyIDs exportOpts)
        then Some [ExportOptions.PropertyIDs exportOpts]
        else ListEvents_query opts !! k)
  /\ (forall opts exportOpts,
        ExportLocations_query opts exportOpts !! k
        = if (k =? "format")%string then Some ["excel"]
          else if (k =? "export_propertyids")%string
               && nonempty (ExportOptions.PropertyIDs exportOpts)
          then Some [ExportOptions.PropertyIDs exportOpts]
          else buildListQuery opts !! k)
  /\ (forall opts exportOpts,
        ExportVenues_query opts exportOpts !! k
        = if (k =? "format")%string then Some ["excel"]
          else if (k =? "export_properyids")%string
               && nonempty (ExportOptions.PropertyIDs exportOpts)
          then Some [ExportOptions.PropertyIDs exportOpts]
          else buildListQuery opts !! k)
  /\ (forall opts,
        ExportRoutes_query opts !! k
        = if (k =? "format")%string then Some ["excel"] else buildListQuery opts !! k)
  /\ (forall opts,
        ExportEventGroups_query opts !! k
        = if (k =? "format")%string then Some ["excel"] else buildListQuery opts !! k).
Proof.
  assert (Key : forall key : string,
             (if decide (key = k) then true else false) = (k =? key)%string).
  { intros key. destruct (decide (key = k)) as [->|Hne].
    - rewrite String.eqb_refl. reflexivity.
    - destruct (String.eqb_spec k key); [congruence|reflexivity]. }
  assert (Set1 : forall key value (q : Values),
             Values_Set key value q !! k
             = if (k =? key)%string then Some [value] else q !! k).
  { intros. rewrite lookup_Values_Set, <- Key. destruct (decide (key = k)); reflexivity. }
  assert (Set2 : forall (b : bool) key value (q : Values),
             (if b then Values_Set key value q else q) !! k
             = if (k =? key)%string && b then Some [value] else q !! k).
  { intros b key value q. destruct b; [rewrite Set1|];
      destruct (k =? key)%string; reflexivity. }
  split; [|split; [|split; [|split]]].
  - intros opts exportOpts. unfold ExportEvents_query, ListEvents_query. cbv zeta.
    rewrite !eventParams_lookup.
    destruct (assigned k (event_entries opts)) as [v|] eqn:A.
    + destruct (String.eqb_spec k "format") as [->|];
        [rewrite assigned_event_other in A by (cbn; intuition discriminate);
         discriminate|].
      destruct (String.eqb_spec k "export_propertyids") as [->|]; cbn [andb];
        [rewrite assigned_event_other in A by (cbn; intuition discriminate);
         discriminate|].
      reflexivity.
    + rewrite Set2, Set1.
      destruct (k =? "export_propertyids")%string eqn:E1,
               (k =? "format")%string eqn:E2; cbn [andb]; try reflexivity.
      apply String.eqb_eq in E1, E2. congruence.
  - intros opts exportOpts. unfold ExportLocations_query. cbv zeta.
    rewrite Set2, Set1.
    destruct (k =? "export_propertyids")%string eqn:E1,
             (k =? "format")%string eqn:E2; cbn [andb]; try reflexivity.
    apply String.eqb_eq in E1, E2. congruence.
  - intros opts exportOpts. unfold ExportVenues_query. cbv zeta.
    rewrite Set2, Set1.
    destruct (k =? "export_properyids")%string eqn:E1,
             (k =? "format")%string eqn:E2; cbn [andb]; try reflexivity.
    apply String.eqb_eq in E1, E2. congruence.
  - intros opts. unfold ExportRoutes_query. apply Set1.
  - intros opts. unfold ExportEventGroups_query. apply Set1.
Qed.

(** ** The runs of the event commands *)

Lemma ParseRelativeTime_invalid now s :
  ~ matches_relative s -> ~ absolute_date s ->
  ParseRelativeTime now s = Err (InvalidTimeExpression s).
Proof.
  intros Hr Ha.
  destruct (relativeTimeRe_FindStringSubmatch s) as [m|] eqn:Hm.
  { exfalso. apply Hr. apply FindStringSubmatch_matches. eauto. }
  rewrite (ParseRelativeTime_no_match now s Hm).
  apply Parse_None_iff in Ha. rewrite Ha. reflexivity.
Qed.

Lemma strings_SplitN_2_cases s sep :
  (contains_byte sep s = false /\ strings_SplitN_2 s sep = [s])
  \/ (contains_byte sep s = true
      /\ exists a b, strings_SplitN_2 s sep = [a; b]
                     /\ s = (a ++ String sep b)%string
                     /\ contains_byte sep a = false).
Proof.
  induction s as [|c r IH]; [left; split; reflexivity|].
  cbn [contains_byte strings_SplitN_2].
  destruct (Ascii.eqb_spec c sep) as [->|Hc]; cbn [orb].
  - right. split; [reflexivity|]. exists EmptyString, r. repeat split.
  - destruct IH as [[Hn E]|[Hy (a & b & E & Hs & Ha)]]; rewrite E.
    + left. split; [exact Hn|reflexivity].
    + right. split; [exact Hy|]. exists (String c a), b.
      split; [reflexivity|]. split.
      * change (String c a ++ String sep b)%string
          with (String c (a ++ String sep b)%string). congruence.
      * cbn [contains_byte]. rewrite Ha.
        destruct (Ascii.eqb_spec c sep); [contradiction|reflexivity].
Qed.

Section Runs.
Context `{Platform}.

(** X12.  A given [--geo] flag is accepted exactly when it holds a comma.
    Without one the flag is refused with the format error; with one the
    latitude is what stands before the first comma and the longitude all
    that stands after it, commas included, both trimmed. *)
Theorem parseGeo_needs_comma geo :
  nonempty geo = true ->
  (parseGeo geo = Err GeoFormat <-> contains_byte "," geo = false)
  /\ (forall lat lon,
        parseGeo geo = Ok (lat, lon) ->
        exists a b,
          geo = (a ++ "," ++ b)%string
          /\ contains_byte "," a = false
          /\ lat = strings_TrimSpace a /\ lon = strings_TrimSpace b).
Proof.
  intros Hne. unfold parseGeo. rewrite Hne.
  destruct (strings_SplitN_2_cases geo ",") as [[Hn E]|[Hy (a & b & E & Hs & Ha)]];
    rewrite E.
  - split; [split; auto|]. intros lat lon [=].
  - split; [split; [discriminate|congruence]|].
    intros lat lon [= <- <-]. exists a, b. auto.
Qed.

(** X13.  A time flag that is given and is neither a relative expression
    nor a calendar date stops the run at once: the list run, and the export
    run once its format check has passed, return the invalid-time-expression
    error for the text behind the name [--updated-since], and nothing is
    sent, written or printed. *)
Theorem malformed_updated_since clock :
  (forall c : EventsListCmd.t,
      nonempty (EventsListCmd.UpdatedSince c) = true ->
      ~ matches_relative (EventsListCmd.UpdatedSince c) ->
      ~ absolute_date (EventsListCmd.UpdatedSince c) ->
      EventsListCmd.Run c clock
      = ([], Err (Wrapped "--updated-since"
                    (InvalidTimeExpression (EventsListCmd.UpdatedSince c)))))
  /\ (forall c : EventsExportCmd.t,
        EventsExportCmd.checkFormat c = Ok tt ->
        nonempty (EventsExportCmd.UpdatedSince c) = true ->
        ~ matches_relative (EventsExportCmd.UpdatedSince c) ->
        ~ absolute_date (EventsExportCmd.UpdatedSince c) ->
        EventsExportCmd.Run c clock
        = ([], Err (Wrapped "--updated-since"
                      (InvalidTimeExpression (EventsExportCmd.UpdatedSince c))))).
Proof.
  split.
  - intros c Hne Hr Ha. rewrite EventsListCmd_Run_unfold.
    unfold EventsListCmd.options, parseFlag, ParseRelativeISO.
    rewrite Hne, (ParseRelativeTime_invalid _ _ Hr Ha). reflexivity.
  - intros c Hf Hne Hr Ha. rewrite EventsExportCmd_Run_unfold, Hf.
    unfold EventsExportCmd.options, parseFlag, ParseRelativeISO.
    rewrite Hne, (ParseRelativeTime_invalid _ _ Hr Ha). reflexivity.
Qed.

(** The options of an accepted list run carry the flags as they are. *)
Lemma EventsListCmd_options_Ok c clock opts :
  EventsListCmd.options c clock = Ok opts ->
  exists updatedSince dateFrom dateTo geoLat geoLon geoDistance,
    opts = EventListOptions.mk
             (ListOptions.mk (EventsListCmd.Search c) (EventsListCmd.Markers c)
                (EventsListCmd.Keywords c) (EventsListCmd.Types c)
                (EventsListCmd.Categories c) (EventsListCmd.WFStatus c)
                (EventsListCmd.Published c) (EventsListCmd.Deleted c)
                (EventsListCmd.Owner c) (EventsListCmd.UserOrg c) (EventsListCmd.TRCID c)
                (EventsListCmd.ExternalID c) (EventsListCmd.Language c) updatedSince
                (EventsListCmd.Sort c) (EventsListCmd.Asc c) (EventsListCmd.Size c)
                (EventsListCmd.Page c))
             dateFrom dateTo (EventsListCmd.LocationID c) (EventsListCmd.City c)
             geoLat geoLon geoDistance.
Proof.
  unfold EventsListCmd.options.
  destruct (parseFlag "--updated-since" _ _) as [v1|]; [|discriminate].
  destruct (parseFlag "--date-from" _ _) as [v2|]; [|discriminate].
  destruct (parseFlag "--date-to" _ _) as [v3|]; [|discriminate].
  destruct (parseGeo _) as [[lat lon]|]; [|discriminate].
  destruct (checkGeoDistance _ _) as [gd|]; [|discriminate].
  intros [= <-]. repeat eexists.
Qed.

(** X14.  The list run forwards its filter flags as they were typed: when
    the flags are accepted, the query that is sent holds the search text, the
    markers with their exclusion marks, the keywords, types, categories and
    the other text filters under their keys, each unchanged and each only when
    it is not empty, and the one request of the run carries that query. *)
Theorem list_flags_forwarded c clock opts :
  EventsListCmd.options c clock = Ok opts ->
  let q := ListEvents_query opts in
  fst (EventsListCmd.Run c clock)
  = [Request "GET" ("/events?" ++ url_Encode q)%string]
  /\ q !! "search" = when (nonempty (EventsListCmd.Search c)) (EventsListCmd.Search c)
  /\ q !! "markers" = when (nonempty (EventsListCmd.Markers c)) (EventsListCmd.Markers c)
  /\ q !! "keywords" = when (nonempty (EventsListCmd.Keywords c)) (EventsListCmd.Keywords c)
  /\ q !! "types" = when (nonempty (EventsListCmd.Types c)) (EventsListCmd.Types c)
  /\ q !! "categories"
     = when (nonempty (EventsListCmd.Categories c)) (EventsListCmd.Categories c)
  /\ q !! "wfstatus" = when (nonempty (EventsListCmd.WFStatus c)) (EventsListCmd.WFStatus c)
  /\ q !! "published"
     = when (nonempty (EventsListCmd.Published c)) (EventsListCmd.Published c)
  /\ q !! "owner" = when (nonempty (EventsListCmd.Owner c)) (EventsListCmd.Owner c)
  /\ q !! "userorganisation"
     = when (nonempty (EventsListCmd.UserOrg c)) (EventsListCmd.UserOrg c)
  /\ q !! "trcid" = when (nonempty (EventsListCmd.TRCID c)) (EventsListCmd.TRCID c)
  /\ q !! "externalid"
     = when (nonempty (EventsListCmd.ExternalID c)) (EventsListCmd.ExternalID c)
  /\ q !! "lang" = when (nonempty (EventsListCmd.Language c)) (EventsListCmd.Language c)
  /\ q !! "sort" = when (nonempty (EventsListCmd.Sort c)) (EventsListCmd.Sort c)
  /\ q !! "locationId"
     = when (nonempty (EventsListCmd.LocationID c)) (EventsListCmd.LocationID c)
  /\ q !! "city" = when (nonempty (EventsListCmd.City c)) (EventsListCmd.City c).
Proof.
  intros E. cbv zeta.
  split; [rewrite EventsListCmd_Run_unfold, E; reflexivity|].
  destruct (EventsListCmd_options_Ok c clock opts E)
    as (us & df & dt & lat & lon & gd & ->).
  unfold ListEvents_query. cbn [EventListOptions.ListOptions].
  repeat split;
    rewrite eventParams_lookup;
    first
      [ rewrite assigned_event_other
          by (cbn [In event_query_keys]; intuition discriminate);
        rewrite buildListQuery_lookup
      | idtac ];
    unfold when;
    cbn [assigned list_query_entries event_entries String.eqb Ascii.eqb Bool.eqb andb
         ListOptions.Search ListOptions.Markers ListOptions.Keywords ListOptions.Types
         ListOptions.Categories ListOptions.WFStatus ListOptions.Published
         ListOptions.Owner ListOptions.UserOrg ListOptions.TRCID
         ListOptions.ExternalID ListOptions.Language ListOptions.Sort
         EventListOptions.LocationID EventListOptions.City];
    destruct (nonempty _); try reflexivity;
    apply buildListQuery_other; cbn [In list_query_keys]; intuition discriminate.
Qed.

(** The cases of an effect being in a trace that is known. *)
Ltac in_trace H :=
  cbn [In] in H;
  repeat (destruct H as [H|H]; [try discriminate H|]);
  try contradiction.

(** An accepted export run, step by step. *)
Lemma EventsExportCmd_Run_accepted (c : EventsExportCmd.t) clock opts :
  EventsExportCmd.checkFormat c = Ok tt ->
  EventsExportCmd.options c clock = Ok opts ->
  let endpoint :=
    ("/events?"
     ++ url_Encode (ExportEvents_query opts
                      (ExportOptions.mk (EventsExportCmd.PropertyIDs c)
                         (EventsExportCmd.Format c))))%string in
  EventsExportCmd.Run c clock
  = match doRequest "GET" endpoint with
    | Err e => ([Request "GET" endpoint], Err e)
    | Ok data =>
      match os_WriteFile (EventsExportCmd.Output c) data with
      | Some e =>
        ([Request "GET" endpoint; FileWritten (EventsExportCmd.Output c) data],
         Err (Wrapped "writing file" e))
      | None =>
        ([Request "GET" endpoint; FileWritten (EventsExportCmd.Output c) data;
          Printed (EventsExportCmd.exported c data)], Ok tt)
      end
    end.
Proof.
  intros Hf Ho. cbv zeta. rewrite EventsExportCmd_Run_unfold, Hf, Ho.
  unfold Client_ExportEvents, send, writeFile, print, bind.
  destruct (doRequest "GET" _) as [data|e]; [|reflexivity].
  destruct (os_WriteFile (EventsExportCmd.Output c) data); reflexivity.
Qed.

(** X15.  An export run whose flags are accepted sends exactly one request,
    a [GET] to the events endpoint with the export query, before anything
    else.  A file is written only after that request has succeeded, and then
    it is the output file with the answer as it came.  The run succeeds
    exactly when the request and the writing both do, and it prints its
    report only then. *)
Theorem export_run_effects (c : EventsExportCmd.t) clock opts :
  EventsExportCmd.checkFormat c = Ok tt ->
  EventsExportCmd.options c clock = Ok opts ->
  let endpoint :=
    ("/events?"
     ++ url_Encode (ExportEvents_query opts
                      (ExportOptions.mk (EventsExportCmd.PropertyIDs c)
                         (EventsExportCmd.Format c))))%string in
  let run := EventsExportCmd.Run c clock in
  (exists rest, fst run = Request "GET" endpoint :: rest /\ requests rest = [])
  /\ (forall name data,
        In (FileWritten name data) (fst run) ->
        name = EventsExportCmd.Output c /\ doRequest "GET" endpoint = Ok data)
  /\ (snd run = Ok tt
      <-> exists data, doRequest "GET" endpoint = Ok data
                       /\ os_WriteFile (EventsExportCmd.Output c) data = None)
  /\ (forall text, In (Printed text) (fst run) -> snd run = Ok tt).
Proof.
  intros Hf Ho. cbv zeta. rewrite (EventsExportCmd_Run_accepted c clock opts Hf Ho).
  cbv zeta.
  destruct (doRequest "GET" _) as [data|e] eqn:Hd;
    [destruct (os_WriteFile (EventsExportCmd.Output c) data) as [e|] eqn:Hw|];
    cbn [fst snd]; (split; [eexists; split; reflexivity|]);
    (split; [intros name d Hin; in_trace Hin; injection Hin as <- <-; auto|]).
  - split; [split; [discriminate|intros (d & [= <-] & Hn); congruence]|].
    intros text Hin; in_trace Hin.
  - split; [split; [eauto|reflexivity]|]. reflexivity.
  - split; [split; [discriminate|intros (d & [=] & _)]|].
    intros text Hin; in_trace Hin.
Qed.
End Runs.

Lemma parseGeo_needs_comma_witness :
  @parseGeo sample_platform "52.37 4.89" = Err GeoFormat.
Proof.
  apply (proj1 (@parseGeo_needs_comma sample_platform "52.37 4.89" eq_refl)).
  reflexivity.
Defined.

Lemma list_flags_forwarded_witness :
  exists opts,
    @EventsListCmd.options sample_platform list_jazz sample_readings = Ok opts
    /\ ListEvents_query opts !! "markers" = Some ["!archived,featured"]
    /\ ListEvents_query opts !! "search" = Some ["jazz"].
Proof.
  eexists. split; [reflexivity|].
  destruct (@list_flags_forwarded sample_platform list_jazz sample_readings _ eq_refl)
    as (_ & Hs & Hm & _).
  split; [exact Hm|exact Hs].
Defined.

Lemma export_run_effects_witness :
  snd (@EventsExportCmd.Run sample_platform export_12345_run sample_readings) = Ok tt.
Proof.
  destruct (@export_run_effects sample_platform export_12345_run sample_readings _
              eq_refl eq_refl) as (_ & _ & Hok & _).
  apply Hok. exists EmptyString. split; reflexivity.
Defined.

(** ** Deleting an event *)

Section Deleting.
Context `{Platform} `{Library}.

(** The run of [events delete], step by step. *)
Lemma EventsDeleteCmd_Run_cases (c : EventsDeleteCmd.t) confirm :
  let endpoint := ("/events/" ++ url_PathEscape (EventsDeleteCmd.ID c))%string in
  let prompt :=
    if EventsDeleteCmd.Force c then []
    else [Printed ("Are you sure you want to delete event "
                   ++ EventsDeleteCmd.ID c ++ "? [y/N] ")%string] in
  EventsDeleteCmd.Run c confirm
  = if EventsDeleteCmd.Force c || (strings_ToLower confirm =? "y")%string then
      match doRequest "DELETE" endpoint with
      | Ok _ =>
        ((prompt
          ++ [Request "DELETE" endpoint;
              Printed ("Event " ++ EventsDeleteCmd.ID c ++ " deleted."
                       ++ String "010" EmptyString)%string])%list, Ok tt)
      | Err e =>
        ((prompt ++ [Request "DELETE" endpoint])%list, Err (Wrapped "deleting event" e))
      end
    else
      ((prompt ++ [Printed ("Cancelled." ++ String "010" EmptyString)%string])%list, Ok tt).
Proof.
  cbv zeta. unfold EventsDeleteCmd.Run, Client_DeleteResource, send, print, ret, bind.
  change ("/" ++ "events" ++ "/" ++ url_PathEscape (EventsDeleteCmd.ID c))%string
    with ("/events/" ++ url_PathEscape (EventsDeleteCmd.ID c))%string.
  destruct (EventsDeleteCmd.Force c); cbn [negb orb];
    [|destruct (strings_ToLower confirm =? "y")%string; cbn [negb]];
    try destruct (doRequest "DELETE" _); reflexivity.
Qed.

(** X16.  [events delete] sends its one [DELETE] request exactly when
    [--force] is given or the answer to the prompt is [y] in either case;
    with any other answer nothing is sent and the run still ends without an
    error.  With [--force] there is no prompt: the request is the first thing
    the run does.  The identifier is path-escaped into the endpoint, and a
    failed request comes back behind [deleting event]. *)
Theorem delete_needs_consent (c : EventsDeleteCmd.t) confirm :
  let endpoint := ("/events/" ++ url_PathEscape (EventsDeleteCmd.ID c))%string in
  let run := EventsDeleteCmd.Run c confirm in
  requests (fst run)
  = (if EventsDeleteCmd.Force c || (strings_ToLower confirm =? "y")%string
     then [Request "DELETE" endpoint] else [])
  /\ (requests (fst run) = [] -> snd run = Ok tt)
  /\ (EventsDeleteCmd.Force c = true ->
      exists rest, fst run = Request "DELETE" endpoint :: rest)
  /\ (forall e, snd run = Err e ->
        exists cause, doRequest "DELETE" endpoint = Err cause
                      /\ e = Wrapped "deleting event" cause).
Proof.
  cbv zeta. rewrite EventsDeleteCmd_Run_cases. cbv zeta.
  destruct (EventsDeleteCmd.Force c); cbn [orb];
    [|destruct (strings_ToLower confirm =? "y")%string];
    try destruct (doRequest "DELETE" _) as [data|cause];
    cbn [fst snd requests List.filter is_request app];
    (split; [reflexivity|]); (split; [try discriminate; reflexivity|]);
    (split; [try discriminate; eauto|]);
    intros e [=]; eauto.
Qed.
End Deleting.

(** ** The wording of an error of the service *)

Lemma text_field_nonempty key fields msg :
  text_field key fields = Some msg -> msg <> EmptyString.
Proof.
  unfold text_field.
  destruct (lookup_field key fields) as [[| | |s| |]|]; try discriminate.
  destruct s; cbn [nonempty]; [discriminate|]. intros [= <-]. discriminate.
Qed.

(** X17.  The message of an error of the service is never empty unless the
    body of the answer is: it is the [message] field of the body when that is
    a text that is not empty, whatever the [error] field holds; failing that
    the [error] field under the same condition; and in every other case, a
    body that is not a JSON object among them, the body itself. *)
Theorem apiErrorMessage_wording :
  (forall decoded respBody,
      apiErrorMessage decoded respBody = EmptyString -> respBody = EmptyString)
  /\ (forall fields respBody msg,
        text_field "message" fields = Some msg ->
        apiErrorMessage (Some (JObject fields)) respBody = msg)
  /\ (forall fields respBody msg,
        text_field "message" fields = None ->
        text_field "error" fields = Some msg ->
        apiErrorMessage (Some (JObject fields)) respBody = msg)
  /\ (forall fields respBody,
        text_field "message" fields = None ->
        text_field "error" fields = None ->
        apiErrorMessage (Some (JObject fields)) respBody = respBody)
  /\ (forall decoded respBody,
        (forall fields, decoded <> Some (JObject fields)) ->
        apiErrorMessage decoded respBody = respBody).
Proof.
  assert (Hmsg : forall msg respBody, msg <> EmptyString ->
            (if (msg =? EmptyString)%string then respBody else msg) = msg).
  { intros msg respBody Hne. destruct (String.eqb_spec msg EmptyString); congruence. }
  repeat split.
  - intros decoded respBody. unfold apiErrorMessage.
    destruct decoded as [[| | | | |fields]|]; cbn [String.eqb]; auto.
    destruct (text_field "message" fields) as [m|] eqn:Em.
    { rewrite (Hmsg m respBody (text_field_nonempty _ _ _ Em)).
      intros ->. apply text_field_nonempty in Em. congruence. }
    destruct (text_field "error" fields) as [m|] eqn:Ee; cbn [String.eqb]; auto.
    rewrite (Hmsg m respBody (text_field_nonempty _ _ _ Ee)).
    intros ->. apply text_field_nonempty in Ee. congruence.
  - intros fields respBody msg Em. unfold apiErrorMessage. rewrite Em.
    apply Hmsg. exact (text_field_nonempty _ _ _ Em).
  - intros fields respBody msg Em Ee. unfold apiErrorMessage. rewrite Em, Ee.
    apply Hmsg. exact (text_field_nonempty _ _ _ Ee).
  - intros fields respBody Em Ee. unfold apiErrorMessage. rewrite Em, Ee. reflexivity.
  - intros decoded respBody Hno. unfold apiErrorMessage.
    destruct decoded as [[| | | | |fields]|]; try reflexivity.
    exfalso. exact (Hno fields eq_refl).
Qed.

(** ** The number of markers *)

Lemma strings_Split_length s sep :
  length (strings_Split s sep) = S (count_byte sep s).
Proof.
  induction s as [|c r IH]; [reflexivity|].
  cbn [strings_Split count_byte].
  destruct (Ascii.eqb c sep).
  - cbn [length]. rewrite IH. reflexivity.
  - pose proof (strings_Split_nonempty r sep) as Hne.
    destruct (strings_Split r sep) as [|h t]; [congruence|].
    cbn [length] in *. rewrite IH. reflexivity.
Qed.

(** X18.  A markers value given as one text holds one marker more than it
    holds commas, the empty text apart, which holds none: nothing is trimmed
    and no empty piece is dropped, so a text of commas alone gives only empty
    markers. *)
Theorem markers_count s :
  length (fst (FlexStringSlice_UnmarshalJSON (JString s)))
  = (if (s =? EmptyString)%string then O else S (count_byte "," s))
  /\ (forall n, fst (FlexStringSlice_UnmarshalJSON (JString (String "," (repeat_byte "," n))))
                = repeat EmptyString (S (S n))).
Proof.
  split.
  - unfold FlexStringSlice_UnmarshalJSON. cbn [Unmarshal_strings Unmarshal_string].
    destruct (s =? EmptyString)%string; [reflexivity|].
    apply strings_Split_length.
  - intros n. unfold FlexStringSlice_UnmarshalJSON.
    cbn [Unmarshal_strings Unmarshal_string String.eqb fst].
    induction n as [|n IH]; [reflexivity|].
    cbn [repeat_byte strings_Split Ascii.eqb Bool.eqb] in *.
    rewrite IH. reflexivity.
Qed.

(** ** The categories of the ontology *)

Lemma Categorization_induction (P : Categorization -> Prop) :
  (forall cnetID name id entityType children translations,
      Forall P children ->
      P (mkCategorization cnetID name id entityType children translations)) ->
  forall cat, P cat.
Proof.
  intros step. fix rec 1.
  intros [cnetID name id entityType children translations].
  apply step. induction children as [|c cs IH]; constructor; [apply rec|exact IH].
Qed.

Lemma collect_category_children lang parent cnetID name id entityType c cs translations :
  collect_category lang parent
    (mkCategorization cnetID name id entityType (c :: cs) translations)
  = collect lang (labelIn lang name translations) (c :: cs).
Proof.
  cbn [collect_category collect]. f_equal.
  induction cs as [|a l IH]; [reflexivity|].
  cbn [collect]. rewrite <- IH. reflexivity.
Qed.

Lemma leaves_of_children cnetID name id entityType c cs translations :
  leaves_of (mkCategorization cnetID name id entityType (c :: cs) translations)
  = leaves (c :: cs).
Proof. reflexivity. Qed.

Lemma collect_Forall (Q : string -> Categorization -> Prop) (R : flatCat -> Prop) lang :
  (forall parent cat, Q parent cat -> Forall R (collect_category lang parent cat)) ->
  forall parent cats, Forall (Q parent) cats -> Forall R (collect lang parent cats).
Proof.
  intros Hq parent cats Hall.
  induction Hall as [|c cs Hc _ IH]; [constructor|].
  cbn [collect]. apply Forall_app. split; [apply Hq; exact Hc|exact IH].
Qed.

Lemma collect_category_ids lang cat :
  forall parent,
    Forall (fun f => flat_ID f <> EmptyString) (collect_category lang parent cat).
Proof.
  induction cat as [cnetID name id entityType children translations IH]
    using Categorization_induction.
  intros parent. destruct children as [|c cs].
  - cbn [collect_category]. destruct cnetID as [|a r]; cbn [nonempty]; [constructor|].
    constructor; [|constructor]. cbn [flat_ID].
    destruct id as [[|b i]|]; cbn [nonempty]; discriminate.
  - rewrite collect_category_children.
    apply (collect_Forall (fun _ cat => forall parent,
             Forall (fun f => flat_ID f <> EmptyString) (collect_category lang parent cat))).
    + intros p cat' Hc. apply Hc.
    + exact IH.
Qed.

Lemma collect_category_length lang cat :
  forall parent, length (collect_category lang parent cat) = leaves_of cat.
Proof.
  induction cat as [cnetID name id entityType children translations IH]
    using Categorization_induction.
  intros parent. destruct children as [|c cs].
  - cbn [collect_category leaves_of]. destruct (nonempty cnetID); reflexivity.
  - rewrite collect_category_children, leaves_of_children.
    generalize (labelIn lang name translations). intros label.
    induction IH as [|a l Ha _ IHl]; [reflexivity|].
    cbn [collect leaves]. rewrite length_app, Ha, IHl. reflexivity.
Qed.

Lemma collect_length lang parent cats :
  length (collect lang parent cats) = leaves cats.
Proof.
  induction cats as [|c cs IH]; [reflexivity|].
  cbn [collect leaves]. rewrite length_app, collect_category_length, IH. reflexivity.
Qed.

Lemma leaves_filter f cats : (leaves (List.filter f cats) <= leaves cats)%nat.
Proof.
  induction cats as [|c cs IH]; [apply Nat.le_refl|].
  cbn [List.filter leaves]. destruct (f c); cbn [leaves]; lia.
Qed.

